(** * ghost-tripper: the 1LMG container codec (decode.py, encode.py)

    A shallow embedding of [decode_1LMG] and [encode_1LMG].  Python [bytes]
    are lists of [byte], Python [int]s are [Z], Python [str] is [string],
    the file system is a finite map from paths to file contents, and an
    uncaught exception is the outcome [Raised]. *)

From Stdlib Require Import ZArith Lia Strings.String Strings.Ascii Strings.Byte List.
From stdpp Require Import base option list gmap strings pretty.

Local Open Scope Z_scope.

(** ** Python values *)

Abbreviation bytes := (list byte).

Global Instance byte_eq_dec : EqDecision byte := Byte.byte_eq_dec.

Definition nl : string := String (ascii_of_nat 10) "".

(** [b'...'] literals. *)
Definition b (s : string) : bytes := String.list_byte_of_string s.

(** [bytes(n)]: [n] zero bytes. *)
Definition zeros (n : nat) : bytes := replicate n x00.

Definition byte_val (x : byte) : Z := Z.of_N (Byte.to_N x).

(** The low eight bits of an integer, as a byte. *)
Definition byte_of_Z (z : Z) : byte :=
  default x00 (Byte.of_N (Z.to_N (z mod 256))).

(** Slice bounds: a negative index counts from the end, and every index is
    clamped to [0 .. n]. *)
Definition slice_index (n : nat) (i : Z) : nat :=
  if i <? 0 then Z.to_nat (Z.max 0 (i + Z.of_nat n))
  else Z.to_nat (Z.min i (Z.of_nat n)).

(** [l[i:]] and [l[:j]]. *)
Definition slice_from {A} (i : Z) (l : list A) : list A :=
  drop (slice_index (length l) i) l.
Definition slice_to {A} (j : Z) (l : list A) : list A :=
  take (slice_index (length l) j) l.

(** [l[i:j]]. *)
Definition slice {A} (i j : Z) (l : list A) : list A :=
  take (slice_index (length l) j - slice_index (length l) i)
       (drop (slice_index (length l) i) l).

Definition chars (s : string) : list ascii := list_ascii_of_string s.
Definition str (l : list ascii) : string := string_of_list_ascii l.

(** [s[i:]] and [s[:j]] on [str]. *)
Definition str_from (i : Z) (s : string) : string := str (slice_from i (chars s)).
Definition str_to (j : Z) (s : string) : string := str (slice_to j (chars s)).

Global Arguments str_from : simpl never.
Global Arguments str_to : simpl never.

Definition len (s : string) : Z := Z.of_nat (String.length s).

(** [s.rfind(c)] for a one-character needle: the highest index holding [c],
    or [-1]. *)
Fixpoint rfind_from (c : ascii) (i : Z) (l : list ascii) : Z :=
  match l with
  | [] => -1
  | x :: l' =>
      let r := rfind_from c (i + 1) l' in
      if 0 <=? r then r else if Ascii.eqb x c then i else -1
  end.
Definition rfind (c : ascii) (s : string) : Z := rfind_from c 0 (chars s).

(** [s.split(sep)] for a non-empty separator: cut at every occurrence of
    [sep], scanning left to right; [skip] counts the characters of a matched
    separator still to be passed over and [cur] is the current piece,
    reversed. *)
Fixpoint split_go (sep : string) (skip : nat) (cur : string) (s : string)
  : list string :=
  match s with
  | EmptyString => [String.rev cur]
  | String c s' =>
      match skip with
      | S k => split_go sep k cur s'
      | O =>
          if String.prefix sep s
          then String.rev cur :: split_go sep (String.length sep - 1) "" s'
          else split_go sep 0 (String c cur) s'
      end
  end.
Definition split (sep : string) (s : string) : list string :=
  split_go sep 0 "" s.

(** ** struct.pack / struct.unpack, little-endian unsigned 32 bit *)

(** [pack('<L', x)] raises [struct.error] outside [0 .. 2^32-1]. *)
Definition pack_L (x : Z) : option bytes :=
  if (0 <=? x) && (x <? 2 ^ 32)
  then Some [byte_of_Z x; byte_of_Z (x / 2 ^ 8);
             byte_of_Z (x / 2 ^ 16); byte_of_Z (x / 2 ^ 24)]
  else None.

(** [unpack('<L', bs)] raises [struct.error] unless [bs] has four bytes. *)
Definition unpack_L (bs : bytes) : option Z :=
  match bs with
  | [b0; b1; b2; b3] =>
      Some (byte_val b0 + byte_val b1 * 2 ^ 8
            + byte_val b2 * 2 ^ 16 + byte_val b3 * 2 ^ 24)
  | _ => None
  end.

Definition pack_LL (x y : Z) : option bytes :=
  bx ← pack_L x; by_ ← pack_L y; Some (bx ++ by_).

Definition pack_LLL (x y z : Z) : option bytes :=
  bx ← pack_L x; by_ ← pack_L y; bz ← pack_L z; Some (bx ++ by_ ++ bz).

Definition unpack_LL (bs : bytes) : option (Z * Z) :=
  if decide (length bs = 8%nat)
  then x ← unpack_L (take 4 bs); y ← unpack_L (drop 4 bs); Some (x, y)
  else None.

(** ** io.BytesIO, as far as the decoder uses it *)

Record BytesIO := { buf : bytes; pos : nat }.

Definition BytesIO_of (data : bytes) : BytesIO := {| buf := data; pos := 0 |}.

(** [data.seek(p)]: a negative position raises [ValueError]; a position past
    the end is accepted. *)
Definition seek (p : Z) (data : BytesIO) : option BytesIO :=
  if p <? 0 then None else Some {| buf := buf data; pos := Z.to_nat p |}.

(** [data.read(n)]: up to [n] bytes from the position, which moves past
    them. *)
Definition read (n : nat) (data : BytesIO) : bytes * BytesIO :=
  let bs := take n (drop (pos data) (buf data)) in
  (bs, {| buf := buf data; pos := pos data + length bs |}).

Definition read_L (data : BytesIO) : option (Z * BytesIO) :=
  let '(bs, data) := read 4 data in
  v ← unpack_L bs; Some (v, data).

Definition read_LL (data : BytesIO) : option (Z * Z * BytesIO) :=
  let '(bs, data) := read 8 data in
  v ← unpack_LL bs; Some (v, data).

(** ** Message *)

(** Modelled from the spec: the class [Message] of lib/message.py, which is
    not among the sources.  The spec gives it the attributes [label],
    [pointer], [length] and [decoded]; the pointer table holds one
    (label-offset, data-offset) pair per message, and the constructor
    receives that pair. *)
Record Message := {
  label_pointer : Z;
  pointer : Z;
  length_ : Z;
  label : string;
  decoded : string
}.

Definition new_Message (label_offset data_offset : Z) : Message :=
  {| label_pointer := label_offset; pointer := data_offset;
     length_ := 0; label := ""; decoded := "" |}.

Definition set_length (n : Z) (m : Message) : Message :=
  {| label_pointer := label_pointer m; pointer := pointer m;
     length_ := n; label := label m; decoded := decoded m |}.

Definition set_decoded (t : string) (m : Message) : Message :=
  {| label_pointer := label_pointer m; pointer := pointer m;
     length_ := length_ m; label := label m; decoded := t |}.

(** What the two programs import from lib.message, lib.lz11 and lib.tables,
    and the text layer of the Python runtime.  [None] stands for a raised
    exception. *)
Record Lib := {
  (** lib.lz11 *)
  lz11_decompress : bytes → option bytes;
  lz11_compress : bytes → option bytes;
  (** lib.tables: [commands[0xfffe]], the stop marker's token *)
  stop_token : string;
  (** lib.message: [message.get_label(data, labels_position)],
      [message.decode(data)], [str(message)], [message.encode()] (bytes, or
      a [str] describing the error) *)
  get_label : Message → BytesIO → Z → option (Message * BytesIO);
  decode : Message → BytesIO → option (Message * BytesIO);
  to_str : Message → string;
  encode : Message → bytes + string;
  (** reading and writing a text file opened with [encoding="utf-8"], and
      [str.encode()] *)
  read_text : bytes → option string;
  write_text : string → bytes;
  str_encode : string → bytes
}.

(** ** The world the programs run in *)

Record World := {
  files : gmap string bytes;
  stderr : list string;
  stdout : list string;
  (** every argument [lz11_decompress] has been called with *)
  decompress_calls : list bytes
}.

Definition write_stderr (s : string) (w : World) : World :=
  {| files := files w; stderr := stderr w ++ [s]; stdout := stdout w;
     decompress_calls := decompress_calls w |}.

Definition print (s : string) (w : World) : World :=
  {| files := files w; stderr := stderr w; stdout := stdout w ++ [s];
     decompress_calls := decompress_calls w |}.

Definition write_file (path : string) (content : bytes) (w : World) : World :=
  {| files := <[path := content]> (files w); stderr := stderr w;
     stdout := stdout w; decompress_calls := decompress_calls w |}.

Definition log_decompress (data : bytes) (w : World) : World :=
  {| files := files w; stderr := stderr w; stdout := stdout w;
     decompress_calls := decompress_calls w ++ [data] |}.

(** How a call ends: [return rc], or an exception nobody caught. *)
Inductive Result := Returned (rc : Z) | Raised.

Definition MAGIC : bytes := b "1LMG".

(** The header is always 0x34 long. *)
Definition HEADER_SIZE : Z := 0x34.

(** The lines written to stderr. *)
Definition format_message (loadpath : string) : string :=
  "File isn't 1LMG format: " +:+ loadpath +:+ nl.
Definition compressed_message (loadpath : string) : string :=
  "1LMG File is compressed: " +:+ loadpath +:+ nl.
Definition decompression_message (loadpath : string) : string :=
  "lz11 decompression failed: " +:+ loadpath +:+ nl.
Definition empty_message (loadpath : string) : string :=
  "1LMG is empty: " +:+ loadpath +:+ nl.
Definition mismatch_message (loadpath : string) : string :=
  "Mismatching number of labels and messages: " +:+ loadpath +:+ nl.
Definition encoding_error_message (loadpath e : string) : string :=
  "File had encoding error: " +:+ loadpath +:+ nl
  +:+ String (ascii_of_nat 9) "" +:+ e +:+ nl.

Section Codec.

Variable lib : Lib.

(** ** decode.py *)

(** Lines 31-44: is it a valid file, and is it still compressed?  Either the
    container's bytes, or the return code of the early exit. *)
Definition open_1LMG (loadpath : string) (data : bytes) (compress : Z)
    (w : World) : (bytes + Z) * World :=
  if decide (slice_to 4 data ≠ MAGIC) then
    if decide (slice 5 9 data = MAGIC) then
      if 1 <? compress then
        let w := log_decompress data w in
        match lz11_decompress lib data with
        | Some data => (inl data, w)
        | None =>
            (inr (-3),
             write_stderr (decompression_message loadpath) w)
        end
      else
        (inr (-1), write_stderr (compressed_message loadpath) w)
    else
      (inr (-1), write_stderr (format_message loadpath) w)
  else (inl data, w).

(** Lines 46-59: the header fields and the message count. *)
Record Layout := {
  mystery : Z;
  data_length : Z;
  string_length : Z;
  string_position : Z;
  pointers_position : Z;
  message_count : Z
}.

Definition read_layout (data : BytesIO) : option (Layout * BytesIO) :=
  data ← seek 4 data;
  '(mystery, data) ← read_L data;
  '(data_length, data) ← read_L data;
  '(string_length, data) ← read_L data;
  let string_position := HEADER_SIZE + data_length in
  let pointers_position := string_position + string_length in
  data ← seek pointers_position data;
  '(message_count, data) ← read_L data;
  Some ({| mystery := mystery; data_length := data_length;
           string_length := string_length;
           string_position := string_position;
           pointers_position := pointers_position;
           message_count := message_count |}, data).

(** Lines 74-76 and 79-81: [Message( *unpack('<LL', data.read(8)) )]. *)
Definition read_message (data : BytesIO) : option (Message * BytesIO) :=
  '(label_offset, data_offset, data) ← read_LL data;
  Some (new_Message label_offset data_offset, data).

(** Lines 78-83, one round of the loop per [m]. *)
Fixpoint read_more (ms : list nat) (messages : list Message) (data : BytesIO)
  : option (list Message * BytesIO) :=
  match ms with
  | [] => Some (messages, data)
  | m :: ms' =>
      '(msg, data) ← read_message data;
      let messages := messages ++ [msg] in
      cur ← messages !! m;
      prev ← messages !! (m - 1)%nat;
      let messages :=
        <[(m - 1)%nat := set_length (pointer cur - pointer prev) prev]> messages in
      read_more ms' messages data
  end.

(** Lines 72-85: the pointer table, with the derived lengths. *)
Definition read_pointer_table (message_count string_position : Z)
    (data : BytesIO) : option (list Message * BytesIO) :=
  '(first, data) ← read_message data;
  let messages := [first] in
  '(messages, data) ←
    (if 1 <? message_count
     then read_more (seq 1 (Z.to_nat message_count - 1)) messages data
     else Some (messages, data));
  last_ ← last messages;
  let messages :=
    <[(length messages - 1)%nat :=
        set_length (string_position - pointer last_) last_]> messages in
  Some (messages, data).

(** Lines 89-92. *)
Fixpoint load_messages (labels_position : Z) (messages : list Message)
    (data : BytesIO) : option (list Message * BytesIO) :=
  match messages with
  | [] => Some ([], data)
  | message :: rest =>
      '(message, data) ← get_label lib message data labels_position;
      '(message, data) ← decode lib message data;
      '(rest, data) ← load_messages labels_position rest data;
      Some (message :: rest, data)
  end.

(** Lines 96-98: cut the alignment pad of a dialogue file. *)
Definition strip_pad (string_length : Z) (messages : list Message)
  : option (list Message) :=
  if decide (string_length = 4) then
    last_ ← last messages;
    if decide (str_from (- (1 + len (stop_token lib))) (decoded last_)
               = stop_token lib +:+ "0")
    then Some (<[(length messages - 1)%nat :=
                   set_decoded (str_to (-1) (decoded last_)) last_]> messages)
    else Some messages
  else Some messages.

(** Lines 65-92: the messages of the pointer table, with label and text. *)
Definition loaded_messages (lay : Layout) (data : BytesIO)
  : option (list Message) :=
  let pointers_length := 4 + message_count lay * 8 in
  let labels_position := pointers_position lay + pointers_length in
  '(messages, data) ←
    read_pointer_table (message_count lay) (string_position lay) data;
  '(messages, data) ← load_messages labels_position messages data;
  Some messages.

(** Lines 65-98: from the layout to the finished messages. *)
Definition decode_messages (lay : Layout) (data : BytesIO)
  : option (list Message) :=
  messages ← loaded_messages lay data;
  strip_pad (string_length lay) messages.

(** [''.join(str(m) for m in messages)]. *)
Definition render (messages : list Message) : string :=
  foldr (λ m acc, to_str lib m +:+ acc) "" messages.

(** Lines 102-107: print the messages, or save them. *)
Definition emit (savepath : option string) (messages : list Message)
    (w : World) : World :=
  match savepath with
  | None => print (render messages +:+ nl) w
  | Some savepath => write_file savepath (write_text lib (render messages)) w
  end.

(** Lines 46-113, on the container's bytes. *)
Definition decode_container (loadpath : string) (savepath : option string)
    (data : bytes) (w : World) : Result * World :=
  match read_layout (BytesIO_of data) with
  | None => (Raised, w)
  | Some (lay, data) =>
      if decide (message_count lay = 0) then
        (Returned (-2), write_stderr (empty_message loadpath) w)
      else
        match decode_messages lay data with
        | None => (Raised, w)
        | Some messages =>
            let w := emit savepath messages w in
            if decide (string_length lay = 4)
            then (Returned 0, w)
            else (Returned 1, w)
        end
  end.

Definition decode_1LMG (loadpath : string) (savepath : option string)
    (compress : Z) (w : World) : Result * World :=
  match files w !! loadpath with
  | None => (Raised, w)
  | Some data =>
      match open_1LMG loadpath data compress w with
      | (inr rc, w) => (Returned rc, w)
      | (inl data, w) => decode_container loadpath savepath data w
      end
  end.

(** ** encode.py *)

(** Line 36: [s[:s.rfind('\n')]]. *)
Definition cut_last_line (s : string) : string :=
  str_to (rfind (ascii_of_nat 10) s) s.

(** Lines 35-36: every piece but the last loses its last line. *)
Definition clean_pieces (data : list string) : list string :=
  foldl (λ data i, alter cut_last_line i data) data
        (seq 0 (length data - 1)).

(** [Message()], then lines 45-47. *)
Definition text_Message (label_ decoded_ : string) : Message :=
  {| label_pointer := 0; pointer := 0; length_ := 0;
     label := label_; decoded := decoded_ |}.

(** Lines 39-48, one round of the loop per [i]. *)
Fixpoint collect (is_ : list nat) (data : list string) (messages : list Message)
  : option (list Message) :=
  match is_ with
  | [] => Some messages
  | i :: is' =>
      piece ← data !! i;
      label_ ← split " Position" piece !! 0%nat;
      let data := <[i := label_]> data in
      label_ ← data !! i;
      decoded_ ← data !! (i + 1)%nat;
      collect is' data (messages ++ [text_Message label_ decoded_])
  end.

(** [range(0, n, 2)]. *)
Definition range2 (n : nat) : list nat :=
  (λ k, 2 * k)%nat <$> seq 0 (Nat.div2 (n + 1)).

(** Line 31: the pieces between the [===] lines. *)
Definition pieces (text : string) : list string :=
  slice_from 1 (split ("===" +:+ nl) text).

(** Lines 31-48: the text file's messages; [inl] is the early [return -1],
    [None] an exception. *)
Definition parse_text (text : string) : option (unit + list Message) :=
  let data := pieces text in
  if decide (Z.of_nat (length data) mod 2 ≠ 0) then Some (inl ())
  else
    let data := clean_pieces data in
    messages ← collect (range2 (length data)) data [];
    Some (inr messages).

(** The sections under construction: [table], [data] and [labels]. *)
Record Sections := { table : bytes; data : bytes; labels : bytes }.

Inductive Built :=
| Complete (s : Sections)
| EncodingError (e : string)
| StructError.

(** Lines 62-69.  Every write appends: each buffer is at its end when it is
    written to. *)
Fixpoint build (messages : list Message) (s : Sections) : Built :=
  match messages with
  | [] => Complete s
  | message :: rest =>
      match pack_LL (Z.of_nat (length (labels s)))
                    (Z.of_nat (length (data s)) + 0x34) with
      | None => StructError
      | Some entry =>
          let table := table s ++ entry in
          match encode lib message with
          | inr e => EncodingError e
          | inl e =>
              build rest
                {| table := table; data := data s ++ e;
                   labels := labels s ++ str_encode lib (label message)
                                      ++ zeros 1 |}
          end
      end
  end.

(** Lines 71-77: make a section a multiple of 4 bytes. *)
Definition pad4 (section : bytes) : bytes :=
  let temp := Z.of_nat (length section) mod 4 in
  if decide (temp ≠ 0) then section ++ zeros (Z.to_nat (4 - temp))
  else section.

(** Line 53: the placeholder string section. *)
Definition strings : bytes := b "*" ++ zeros 3.

(** Lines 80-84. *)
Definition build_header (data table labels : bytes) : option bytes :=
  fields ← pack_LLL (Z.of_nat (length data)) (Z.of_nat (length strings))
                    (Z.of_nat (length table) + Z.of_nat (length labels));
  Some (b "1LMG" ++ zeros 4 ++ fields ++ zeros 0x20).

(** Lines 51-91: the container's bytes for a list of messages. *)
Inductive Encoded :=
| Container (out : bytes)
| EncodeFailed (e : string)
| EncodeRaised.

Definition encode_container (messages : list Message) : Encoded :=
  match pack_L (Z.of_nat (length messages)) with
  | None => EncodeRaised
  | Some count =>
      match build messages
              {| table := count; data := []; labels := b "*" ++ zeros 1 |} with
      | StructError => EncodeRaised
      | EncodingError e => EncodeFailed e
      | Complete s =>
          let data := pad4 (data s) in
          let labels := pad4 (labels s) in
          match build_header data (table s) labels with
          | None => EncodeRaised
          | Some header =>
              Container (header ++ data ++ strings ++ table s ++ labels)
          end
      end
  end.

(** Line 95: is the file to be written compressed? *)
Definition compressing (savepath : string) (compress : Z) : Prop :=
  (str_from (-3) savepath = ".lz" ∧ compress = 2) ∨ compress = 3.

(** Lines 93-100: save the container, compressed when asked to.  The file is
    opened, hence created, before [lz11_compress] runs. *)
Definition save (savepath : string) (compress : Z) (out : bytes) (w : World)
  : Result * World :=
  if decide (compressing savepath compress)
  then
    match lz11_compress lib out with
    | Some packed => (Returned 0, write_file savepath packed w)
    | None => (Raised, write_file savepath [] w)
    end
  else (Returned 0, write_file savepath out w).

(** Lines 50-100: build the file from the messages and save it. *)
Definition encode_messages (loadpath savepath : string) (compress : Z)
    (messages : list Message) (w : World) : Result * World :=
  match encode_container messages with
  | EncodeRaised => (Raised, w)
  | EncodeFailed e =>
      (Returned (-3), write_stderr (encoding_error_message loadpath e) w)
  | Container out => save savepath compress out w
  end.

Definition encode_1LMG (loadpath savepath : string) (compress : Z)
    (w : World) : Result * World :=
  match files w !! loadpath ≫= read_text lib with
  | None => (Raised, w)
  | Some text =>
      match parse_text text with
      | None => (Raised, w)
      | Some (inl _) =>
          (Returned (-1), write_stderr (mismatch_message loadpath) w)
      | Some (inr messages) =>
          encode_messages loadpath savepath compress messages w
      end
  end.

End Codec.

(** ** A small library to run the codec with

    Modelled from the spec: lib/lz11.py, lib/message.py and lib/tables.py are
    not among the sources.  This instance of [Lib] serves to evaluate the
    two programs on concrete files: the LZ11 stream format of the spec
    (section 4.3), and a transcoder over 16-bit little-endian units whose
    command table holds a single command, the stop marker.  A message is
    rendered as the text interchange format asks (section 6): a [===] line,
    the label line with its position note, a [===] line and the text, laid
    out so that encode.py reads back what decode.py wrote. *)
Module Sample.

(** A back-reference is three, four or two bytes wide, selected by the high
    nibble of its first byte: its length, its distance and the rest of the
    stream. *)
Definition reference (input : bytes) : option (nat * nat * bytes) :=
  match input with
  | [] => None
  | b0 :: rest =>
      let hi := Z.shiftr (byte_val b0) 4 in
      let lo := Z.land (byte_val b0) 0xF in
      if hi =? 0 then
        match rest with
        | b1 :: b2 :: rest =>
            Some (Z.to_nat (Z.lor (Z.shiftl lo 4) (Z.shiftr (byte_val b1) 4) + 0x11),
                  Z.to_nat (Z.lor (Z.shiftl (Z.land (byte_val b1) 0xF) 8)
                                  (byte_val b2) + 1),
                  rest)
        | _ => None
        end
      else if hi =? 1 then
        match rest with
        | b1 :: b2 :: b3 :: rest =>
            Some (Z.to_nat (Z.lor (Z.lor (Z.shiftl lo 12) (Z.shiftl (byte_val b1) 4))
                                  (Z.shiftr (byte_val b2) 4) + 0x111),
                  Z.to_nat (Z.lor (Z.shiftl (Z.land (byte_val b2) 0xF) 8)
                                  (byte_val b3) + 1),
                  rest)
        | _ => None
        end
      else
        match rest with
        | b1 :: rest =>
            Some (Z.to_nat (hi + 1),
                  Z.to_nat (Z.lor (Z.shiftl lo 8) (byte_val b1) + 1),
                  rest)
        | _ => None
        end
  end.

(** Copy [n] bytes from [dist] back, one at a time, so that a match may run
    into the bytes it produces. *)
Fixpoint copy_back (n dist : nat) (out : bytes) : option bytes :=
  match n with
  | O => Some out
  | S n' =>
      if decide (1 ≤ dist ≤ length out)%nat then
        x ← out !! (length out - dist)%nat;
        copy_back n' dist (out ++ [x])
      else None
  end.

(** The flag byte's bits, most significant first. *)
Definition flag_bits (f : byte) : list bool :=
  (λ i, Z.testbit (byte_val f) (Z.of_nat i)) <$> [7; 6; 5; 4; 3; 2; 1; 0]%nat.

(** The token groups: a flag bit 0 copies a literal byte, a flag bit 1 is a
    back-reference; the output stops at the declared size. *)
Fixpoint body (fuel size : nat) (flags : list bool) (input out : bytes)
  : option bytes :=
  if decide (size ≤ length out)%nat then Some out
  else
    match fuel with
    | O => None
    | S fuel =>
        match flags with
        | [] =>
            match input with
            | [] => None
            | f :: input => body fuel size (flag_bits f) input out
            end
        | false :: flags =>
            match input with
            | [] => None
            | x :: input => body fuel size flags input (out ++ [x])
            end
        | true :: flags =>
            '(n, dist, input) ← reference input;
            if decide (length out + n ≤ size)%nat then
              out ← copy_back n dist out;
              body fuel size flags input out
            else None
        end
    end.

(** A little-endian integer of any width. *)
Definition le_int (bs : bytes) : Z :=
  foldr (λ x acc, byte_val x + 256 * acc) 0 bs.

(** Modelled from the spec: [lz11_decompress] of lib/lz11.py.  The stream
    opens with the type byte 0x11 and a 3-byte size, followed by a 4-byte
    size when the 3-byte one is zero; a malformed stream raises. *)
Definition lz11_decompress (stream : bytes) : option bytes :=
  match stream with
  | x11 :: s0 :: s1 :: s2 :: rest =>
      let size := le_int [s0; s1; s2] in
      if size =? 0 then
        match rest with
        | e0 :: e1 :: e2 :: e3 :: rest =>
            body (9 * length rest + 1) (Z.to_nat (le_int [e0; e1; e2; e3]))
                 [] rest []
        | _ => None
        end
      else body (9 * length rest + 1) (Z.to_nat size) [] rest []
  | _ => None
  end.

(** Modelled from the spec: [lz11_compress] of lib/lz11.py, reduced to a
    compressor that looks for no match, so that every token is a literal;
    its streams are valid and decompress to the input. *)
Fixpoint literals (k : nat) (input : bytes) : bytes :=
  match input with
  | [] => []
  | x :: input' =>
      match k with
      | O => x00 :: x :: literals 7 input'
      | S k' => x :: literals k' input'
      end
  end.

(** The stream for [input]: header, then the literal groups. *)
Definition lz11_compress (input : bytes) : option bytes :=
  let n := Z.of_nat (length input) in
  if (0 <? n) && (n <? 2 ^ 24) then
    Some ([x11; byte_of_Z n; byte_of_Z (n / 2 ^ 8); byte_of_Z (n / 2 ^ 16)]
          ++ literals 0 input)
  else
    size ← pack_L n;
    Some ([x11; x00; x00; x00] ++ size ++ literals 0 input).

(** Modelled from the spec: [commands[0xfffe]] of lib/tables.py, the stop
    marker's token.  In this transcoder unit 0xfffe is the stop marker,
    units 0..9 are the digits and units 10..35 the lower-case letters. *)
Definition stop_token : string := "[STOP]".

Definition unit_text (u : Z) : option string :=
  if u =? 0xfffe then Some stop_token
  else if (0 <=? u) && (u <? 10) then
    Some (String (ascii_of_N (Z.to_N (48 + u))) "")
  else if (10 <=? u) && (u <? 36) then
    Some (String (ascii_of_N (Z.to_N (97 + (u - 10)))) "")
  else None.

Fixpoint units_text (payload : bytes) : option string :=
  match payload with
  | [] => Some ""
  | lo :: hi :: rest =>
      t ← unit_text (byte_val lo + 256 * byte_val hi);
      r ← units_text rest;
      Some (t +:+ r)
  | _ => None
  end.

Definition set_label (l : string) (m : Message) : Message :=
  {| label_pointer := label_pointer m; pointer := pointer m;
     length_ := length_ m; label := l; decoded := decoded m |}.

Fixpoint until_zero (bs : bytes) : bytes :=
  match bs with
  | [] => []
  | x :: bs' => if decide (x = x00) then [] else x :: until_zero bs'
  end.

(** Modelled from the spec: [Message.get_label] of lib/message.py reads the
    zero-terminated label at [labels_position + label_pointer]. *)
Definition get_label (m : Message) (data : BytesIO) (labels_position : Z)
  : option (Message * BytesIO) :=
  data ← seek (labels_position + label_pointer m) data;
  let raw := until_zero (drop (pos data) (buf data)) in
  Some (set_label (String.string_of_list_byte raw) m,
        {| buf := buf data; pos := pos data + length raw + 1 |}).

(** Modelled from the spec: [Message.decode] of lib/message.py renders the
    [length] bytes at [pointer]; a payload that does not split into known
    units raises. *)
Definition decode (m : Message) (data : BytesIO) : option (Message * BytesIO) :=
  data ← seek (pointer m) data;
  let '(payload, data) := read (Z.to_nat (length_ m)) data in
  t ← units_text payload;
  Some (set_decoded t m, data).

(** Modelled from the spec: [Message.__str__] of lib/message.py. *)
Definition to_str (m : Message) : string :=
  nl +:+ "===" +:+ nl +:+ label m +:+ " Position: " +:+ pretty (pointer m)
     +:+ nl +:+ "===" +:+ nl +:+ decoded m.

Definition char_unit (c : ascii) : option Z :=
  let n := Z.of_N (N_of_ascii c) in
  if (48 <=? n) && (n <? 58) then Some (n - 48)
  else if (97 <=? n) && (n <? 123) then Some (n - 97 + 10)
  else None.

Definition unit_bytes (u : Z) : bytes := [byte_of_Z u; byte_of_Z (u / 256)].

Fixpoint text_units (fuel : nat) (t : string) : bytes + string :=
  match fuel with
  | O => inl []
  | S fuel =>
      match t with
      | EmptyString => inl []
      | String c t' =>
          if String.prefix stop_token t then
            match text_units fuel (str_from (len stop_token) t) with
            | inl r => inl (unit_bytes 0xfffe ++ r)
            | inr e => inr e
            end
          else
            match char_unit c with
            | None => inr ("Unknown character: " +:+ String c "")
            | Some u =>
                match text_units fuel t' with
                | inl r => inl (unit_bytes u ++ r)
                | inr e => inr e
                end
            end
      end
  end.

(** Modelled from the spec: [Message.encode] of lib/message.py returns the
    payload, or a description of the error. *)
Definition encode (m : Message) : bytes + string :=
  text_units (String.length (decoded m) + 1) (decoded m).

Definition lib : Lib :=
  Build_Lib lz11_decompress lz11_compress stop_token get_label decode to_str
            encode (λ raw, Some (String.string_of_list_byte raw))
            String.list_byte_of_string String.list_byte_of_string.

End Sample.

(** * The console interface

    The loops at the end of decode.py and encode.py, which call the two
    functions above once per input file.  What they take from the operating
    system and from Python's float formatting is a parameter. *)

Record Os := {
  (** [os.path.join] and [os.path.basename] *)
  path_join : string → string → string;
  path_basename : string → string;
  (** does [Path(savepath).parent.mkdir(parents=True, exist_ok=True)]
      succeed?  The world holds files only, so a directory made leaves no
      trace in it; a failure raises. *)
  mkdir_parent : string → bool;
  (** ["{0:.1f}".format(100 * (iteration / float(total)))] *)
  percent : Z → Z → string;
  (** the character U+2588 of the progress bar, as a [str] *)
  full_block : string
}.

(** What the loops read from [args], and [output_is_folder]. *)
Record Args := {
  output : string;
  folder : bool;
  silent : bool;
  compress_arg : Z;
  output_is_folder : bool
}.

(** [s * n] on [str]: nothing for [n <= 0]. *)
Definition str_times (s : string) (n : Z) : string :=
  Nat.iter (Z.to_nat n) (λ acc, s +:+ acc) "".

(** The bar of [print_progress]: [filledLength] full cells, then dashes up
    to 100. *)
Definition progress_bar (os : Os) (iteration total : Z) : string :=
  let filledLength := 100 * iteration / total in
  str_times (full_block os) filledLength
  +:+ str_times "-" (100 - filledLength).

(** [print_progress], the same in both files.  A [total] of 0 makes the
    float division raise. *)
Definition print_progress (os : Os) (iteration total : Z) (w : World)
  : option World :=
  if total =? 0 then None
  else
    let bar := progress_bar os iteration total in
    let w := print (String (ascii_of_nat 13) "" +:+ "|" +:+ bar +:+ "| "
                    +:+ percent os iteration total +:+ "%"
                    +:+ String (ascii_of_nat 13) "") w in
    Some (if iteration =? total then print nl w else w).

(** decode.py lines 144-145 and encode.py lines 131-132: the compress
    setting when the LZ11 library may be missing. *)
Definition decode_compress_setting (compress : Z) (lz11_init : bool) : Z :=
  if (compress =? 2) && negb lz11_init then 1 else compress.


(** decode.py lines 204-211: where the text of an input goes. *)
Definition decode_savepath (os : Os) (args : Args) (input : string * string)
  : string :=
  if output_is_folder args then
    let filename :=
      if folder args then input.2 else path_basename os input.2 in
    path_join os (output args) filename
  else output args.

(** encode.py lines 200-201. *)
Definition strip_txt (filename : string) : string :=
  if decide (str_from (-4) filename = ".txt") then str_to (-4) filename
  else filename.


(** decode.py lines 199-218, from input number [i] on; [None] when an
    exception ended the loop.  [decode_1LMG] gets its default compress
    setting, 2: [args.compress] is not passed. *)
Fixpoint decode_loop (lib : Lib) (os : Os) (args : Args) (total i : Z)
    (inputs : list (string * string)) (decoded_files : Z) (w : World)
  : option Z * World :=
  match inputs with
  | [] => (Some decoded_files, w)
  | input :: rest =>
      match (if silent args then Some w else print_progress os (1 + i) total w)
      with
      | None => (None, w)
      | Some w =>
          let savepath := decode_savepath os args input in
          if folder args && negb (mkdir_parent os savepath) then (None, w)
          else
            match decode_1LMG lib input.1 (Some (savepath +:+ ".txt")) 2 w with
            | (Raised, w) => (None, w)
            | (Returned rc, w) =>
                decode_loop lib os args total (i + 1) rest
                  (if 0 <=? rc then decoded_files + 1 else decoded_files) w
            end
      end
  end.

Definition decode_all (lib : Lib) (os : Os) (args : Args)
    (inputs : list (string * string)) (w : World) : option Z * World :=
  decode_loop lib os args (Z.of_nat (length inputs) + 1) 0 inputs 0 w.



(** [args] with another compress setting. *)
Definition with_compress (compress : Z) (args : Args) : Args :=
  {| output := output args; folder := folder args; silent := silent args;
     compress_arg := compress; output_is_folder := output_is_folder args |}.

(** The two tools from the compress adjustment to the end of the loop;
    [lz11_init] is what the library's probe answers. *)
Definition decode_tool (lib : Lib) (os : Os) (args : Args) (lz11_init : bool)
    (inputs : list (string * string)) (w : World) : option Z * World :=
  decode_all lib os
    (with_compress (decode_compress_setting (compress_arg args) lz11_init) args)
    inputs w.


(** * Vocabulary of the statements *)

(** Entry [i] of the pointer table whose pairs start at byte [start]. *)
Definition table_entry (data : bytes) (start i : nat) : option (Z * Z) :=
  unpack_LL (take 8 (drop (start + 8 * i) data)).

(** Each message but the last runs up to the next message's data. *)
Definition consecutive (messages : list Message) : Prop :=
  ∀ i m m', messages !! i = Some m → messages !! S i = Some m' →
            length_ m = pointer m' - pointer m.

(** The messages carry the table's pairs, in the table's order. *)
Definition from_table (data : bytes) (start : nat) (messages : list Message)
  : Prop :=
  ∀ i m, messages !! i = Some m →
         table_entry data start i = Some (label_pointer m, pointer m).

(** The pointer table of a container, as [decode_1LMG] reads it. *)
Definition pointer_table_of (data : bytes) : option (list Message) :=
  '(lay, data) ← read_layout (BytesIO_of data);
  '(messages, _) ←
    read_pointer_table (message_count lay) (string_position lay) data;
  Some messages.

(** A label in the label section: its bytes and the terminating zero. *)
Definition label_bytes (lib : Lib) (m : Message) : bytes :=
  str_encode lib (label m) ++ zeros 1.

(** The label buffer when message [k] is reached: the placeholder pair and
    the labels of the messages before it. *)
Definition labels_before (lib : Lib) (messages : list Message) (k : nat)
  : bytes :=
  b "*" ++ zeros 1 ++ concat (label_bytes lib <$> take k messages).

(** The data buffer when message [k] is reached. *)
Definition data_before (payloads : list bytes) (k : nat) : bytes :=
  concat (take k payloads).

(** Bytes 4..7 of a container, as line 49 of decode.py reads them. *)
Definition mystery_field (container : bytes) : option Z :=
  unpack_L (slice 4 8 container).

(** [sep.join(pieces)]. *)
Fixpoint join (sep : string) (l : list string) : string :=
  match l with
  | [] => ""
  | [x] => x
  | x :: l' => x +:+ sep +:+ join sep l'
  end.

(** [sep in s]: does [sep] occur in [s]? *)
Fixpoint contains (sep s : string) : bool :=
  String.prefix sep s
  || match s with
     | EmptyString => false
     | String _ s' => contains sep s'
     end.

(** * Files to run the programs on *)

(** A 32-bit field of a hand-made container. *)
Definition u32 (x : Z) : bytes := default [] (pack_L x).

(** A file system holding the given files, and silent streams. *)
Definition disk (fs : list (string * bytes)) : World :=
  {| files := list_to_map fs; stderr := []; stdout := [];
     decompress_calls := [] |}.

(** The container of the spec's example: three messages at [0x34],
    [0x34+10] and [0x34+10+5], and 22 bytes of data. *)
Definition example_container : bytes :=
  b "1LMG" ++ zeros 4 ++ u32 22 ++ u32 4 ++ u32 36 ++ zeros 0x20
  ++ zeros 22
  ++ b "*" ++ zeros 3
  ++ u32 3 ++ u32 2 ++ u32 0x34 ++ u32 4 ++ u32 (0x34 + 10)
  ++ u32 6 ++ u32 (0x34 + 10 + 5)
  ++ b "*" ++ zeros 1 ++ b "a" ++ zeros 1 ++ b "b" ++ zeros 1 ++ b "c" ++ zeros 1.

(** No magic at offset 0 or 5. *)
Definition junk : bytes := b "not a container".

(** The magic at offset 5, but no LZ11 stream. *)
Definition packed_junk : bytes := b "?????1LMG".

(** A valid container without messages. *)
Definition empty_container : bytes :=
  b "1LMG" ++ zeros 4 ++ u32 0 ++ u32 4 ++ u32 8 ++ zeros 0x20
  ++ b "*" ++ zeros 3
  ++ u32 0
  ++ b "*" ++ zeros 3.

(** A disk with the three files above. *)
Definition demo_disk : World :=
  disk [("packed", packed_junk); ("junk", junk); ("empty", empty_container)].

(** The payload of a message made of "hello", the stop marker and one unit
    of padding, under the sample transcoder. *)
Definition hello_payload : bytes :=
  match Sample.text_units 20 "hello[STOP]0" with inl bs => bs | inr _ => [] end.

(** The same without the padding. *)
Definition hello_payload_12 : bytes := take 12 hello_payload.

(** The container around it: 14 bytes of data, one table entry. *)
Definition hello_container : bytes :=
  b "1LMG" ++ zeros 4 ++ u32 14 ++ u32 4 ++ u32 20 ++ zeros 0x20
  ++ hello_payload
  ++ b "*" ++ zeros 3
  ++ u32 1 ++ u32 2 ++ u32 0x34
  ++ b "*" ++ zeros 1 ++ b "greet" ++ zeros 1.

(** Its message, with the given text. *)
Definition hello_message (text : string) : Message :=
  {| label_pointer := 2; pointer := 0x34; length_ := 14;
     label := "greet"; decoded := text |}.

(** The text of an unfinished block: one label, no message. *)
Definition lone_label : string := "===" +:+ nl +:+ "greet Position: 52" +:+ nl.

(** The messages of the sample text, as [parse_text] delivers them. *)
Definition two_messages : list Message :=
  [text_Message "intro" "hello[STOP]"; text_Message "b2" "bye[STOP]"].

(** The container [encode_container] builds from them. *)
Definition two_messages_container : bytes :=
  Eval vm_compute in
    match encode_container Sample.lib two_messages with
    | Container out => out
    | _ => []
    end.

(** A text whose second message holds a character outside the sample
    transcoder's table. *)
Definition broken_text : string :=
  nl +:+ "===" +:+ nl +:+ "intro Position: 52" +:+ nl +:+ "===" +:+ nl
  +:+ "hello[STOP]" +:+ nl +:+ "===" +:+ nl +:+ "b2 Position: 64" +:+ nl
  +:+ "===" +:+ nl +:+ "bye!".

(** The sample container with 7 in its mystery field. *)
Definition mystery_container : bytes :=
  take 4 two_messages_container ++ u32 7 ++ drop 8 two_messages_container.

(** Decoding it, then encoding the text that came out. *)
Definition mystery_decoded : Result * World :=
  decode_1LMG Sample.lib "m.1lmg" (Some "m.txt") 2
    (disk [("m.1lmg", mystery_container)]).

Definition mystery_encoded : Result * World :=
  encode_1LMG Sample.lib "m.txt" "back.1lmg" 1 mystery_decoded.2.

(** Encoding an empty text file. *)
Definition blank_encoded : Result * World :=
  encode_1LMG Sample.lib "blank.txt" "blank.1lmg" 1 (disk [("blank.txt", [])]).

(** A text of two blocks, and a disk that holds it. *)
Definition two_blocks_text : string :=
  nl +:+ "===" +:+ nl +:+ "intro Position: 52" +:+ nl +:+ "===" +:+ nl
  +:+ "hello[STOP]" +:+ nl +:+ "===" +:+ nl +:+ "b2 Position: 64" +:+ nl
  +:+ "===" +:+ nl +:+ "bye[STOP]".

Definition two_blocks_disk : World := disk [("two.txt", b two_blocks_text)].

(** An operating system with [/] between the parts of a path, for the
    examples; the percentage is held as a whole number. *)
Definition demo_os : Os :=
  {| path_join := λ a name, a +:+ name;
     path_basename := λ name, name;
     mkdir_parent := λ _, true;
     percent := λ iteration total, pretty (100 * iteration / total);
     full_block := "#" |}.


(** * Properties *)

(** ** The programs on small inputs *)

Example split_keeps_empty_pieces :
  split "ab" "ababxab" = [""; ""; "x"; ""].
Proof. reflexivity. Qed.

Example pieces_of_blank : pieces "" = [].
Proof. reflexivity. Qed.

Example cut_last_line_without_newline : cut_last_line "abc" = "ab".
Proof. reflexivity. Qed.

Example slice_past_the_end : slice 5 9 (b "0123456") = b "56".
Proof. reflexivity. Qed.

Example parse_two_blocks :
  parse_text
    (nl +:+ "===" +:+ nl +:+ "intro Position: 52" +:+ nl +:+ "===" +:+ nl
     +:+ "hello[STOP]" +:+ nl +:+ "===" +:+ nl +:+ "b2 Position: 64" +:+ nl
     +:+ "===" +:+ nl +:+ "bye[STOP]")
  = Some (inr two_messages).
Proof. reflexivity. Qed.

(** Decoding [two_messages_container] and encoding the text again gives the
    container back, also through the compressed form. *)
Example sample_round_trip :
  let w0 := disk [("in.1lmg", two_messages_container)] in
  let w1 := (decode_1LMG Sample.lib "in.1lmg" (Some "in.txt") 2 w0).2 in
  let w2 := (encode_1LMG Sample.lib "in.txt" "out.lz" 2 w1).2 in
  let r3 := decode_1LMG Sample.lib "out.lz" (Some "out.txt") 2 w2 in
  r3.1 = Returned 0
  ∧ files r3.2 !! "out.txt" = files w1 !! "in.txt"
  ∧ files w2 !! "out.lz" = Sample.lz11_compress two_messages_container.
Proof. by vm_compute. Qed.

(** ** Reading from a [BytesIO] *)

Lemma unpack_LL_length bs v : unpack_LL bs = Some v → length bs = 8%nat.
Proof. unfold unpack_LL. by case_decide. Qed.

Lemma read_L_Some data v data' :
  read_L data = Some (v, data') →
  unpack_L (take 4 (drop (pos data) (buf data))) = Some v
  ∧ buf data' = buf data ∧ pos data' = (pos data + 4)%nat.
Proof.
  unfold read_L, read. intros H. simplify_option_eq.
  split_and!; [done..|]. f_equal.
  destruct (take 4 (drop (pos data) (buf data))) as [|? [|? [|? [|? [|? ?]]]]];
    by simplify_eq/=.
Qed.

Lemma read_LL_Some data a p data' :
  read_LL data = Some (a, p, data') →
  unpack_LL (take 8 (drop (pos data) (buf data))) = Some (a, p)
  ∧ buf data' = buf data ∧ pos data' = (pos data + 8)%nat.
Proof.
  unfold read_LL, read. intros H. simplify_option_eq.
  split_and!; [done..|]. f_equal. by eapply unpack_LL_length.
Qed.

Lemma read_message_Some data msg data' :
  read_message data = Some (msg, data') →
  unpack_LL (take 8 (drop (pos data) (buf data)))
    = Some (label_pointer msg, pointer msg)
  ∧ buf data' = buf data ∧ pos data' = (pos data + 8)%nat.
Proof.
  unfold read_message. intros H.
  destruct (read_LL data) as [[[a p] d]|] eqn:E; simplify_eq/=.
  by apply read_LL_Some in E.
Qed.

(** ** The pointer table and the derived lengths *)

Lemma read_more_spec start n : ∀ k messages data messages' data',
  read_more (seq k n) messages data = Some (messages', data') →
  length messages = k → (1 ≤ k)%nat →
  consecutive messages → from_table (buf data) start messages →
  pos data = (start + 8 * k)%nat →
  length messages' = (k + n)%nat ∧ consecutive messages'
  ∧ from_table (buf data) start messages'
  ∧ buf data' = buf data ∧ pos data' = (start + 8 * (k + n))%nat.
Proof.
  induction n as [|n IH]; intros k messages data messages' data' Hrun Hlen Hk Hc Ht Hp.
  { simplify_eq/=. split_and!; auto with lia. }
  cbn [seq read_more] in Hrun.
  destruct (read_message data) as [[msg d1]|] eqn:Hmsg; [|done].
  cbn in Hrun.
  apply read_message_Some in Hmsg as (Hentry & Hbuf & Hpos).
  assert (Hcur : (messages ++ [msg]) !! k = Some msg).
  { rewrite lookup_app_r by lia. by replace (k - length messages)%nat with 0%nat by lia. }
  rewrite Hcur in Hrun. cbn in Hrun.
  destruct (lookup_lt_is_Some_2 messages (k - 1)) as [prev Hprev]; [lia|].
  rewrite (lookup_app_l_Some _ _ _ _ Hprev) in Hrun. cbn in Hrun.
  apply IH in Hrun.
  - destruct Hrun as (? & ? & ? & ? & ?).
    rewrite Hbuf in *. split_and!; auto with lia.
  - rewrite length_insert, length_app. simpl. lia.
  - lia.
  - intros i m m' Hi Hi'.
    destruct (decide (i = k - 1)%nat) as [->|Hne].
    + rewrite list_lookup_insert_eq in Hi by (rewrite length_app; simpl; lia).
      rewrite list_lookup_insert_ne in Hi' by lia.
      replace (S (k - 1)) with k in Hi' by lia. by simplify_eq/=.
    + rewrite list_lookup_insert_ne in Hi by done.
      assert (S i < k)%nat.
      { apply lookup_lt_Some in Hi'. rewrite length_insert, length_app in Hi'.
        simpl in Hi'. lia. }
      rewrite lookup_app_l in Hi by lia.
      destruct (decide (S i = k - 1)%nat) as [Heq|Hne'].
      * rewrite Heq, list_lookup_insert_eq in Hi'
          by (rewrite length_app; simpl; lia).
        simplify_eq/=. rewrite <- Heq in Hprev. by apply (Hc i).
      * rewrite list_lookup_insert_ne, lookup_app_l in Hi' by lia.
        by apply (Hc i).
  - rewrite Hbuf. intros i m Hi.
    destruct (decide (i = k - 1)%nat) as [->|Hne].
    + rewrite list_lookup_insert_eq in Hi by (rewrite length_app; simpl; lia).
      simplify_eq/=. by apply Ht.
    + rewrite list_lookup_insert_ne in Hi by done.
      destruct (decide (i < k)%nat).
      * rewrite lookup_app_l in Hi by lia. by apply Ht.
      * assert (i = k) as ->.
        { apply lookup_lt_Some in Hi. rewrite length_app in Hi. simpl in Hi. lia. }
        rewrite Hcur in Hi. simplify_eq. unfold table_entry. by rewrite <- Hp.
  - rewrite Hpos, Hp. lia.
Qed.

Lemma consecutive_set_last messages m n :
  last messages = Some m →
  consecutive messages →
  consecutive (<[(length messages - 1)%nat := set_length n m]> messages).
Proof.
  intros Hlast Hc i x x' Hi Hi'.
  assert (S i < length messages)%nat.
  { apply lookup_lt_Some in Hi'. by rewrite length_insert in Hi'. }
  rewrite list_lookup_insert_ne in Hi by lia.
  destruct (decide (S i = length messages - 1)%nat) as [Heq|Hne].
  - rewrite Heq, list_lookup_insert_eq in Hi' by lia. simplify_eq/=.
    apply (Hc i); [done|]. rewrite Heq, <- Hlast, last_lookup.
    f_equal. lia.
  - rewrite list_lookup_insert_ne in Hi' by lia. by apply (Hc i).
Qed.

Lemma read_pointer_table_spec count sp data messages data' :
  read_pointer_table count sp data = Some (messages, data') →
  1 ≤ count →
  length messages = Z.to_nat count
  ∧ consecutive messages
  ∧ (∀ m, last messages = Some m → length_ m = sp - pointer m)
  ∧ from_table (buf data) (pos data) messages.
Proof.
  unfold read_pointer_table. intros Hrun Hcount.
  destruct (read_message data) as [[first d1]|] eqn:Hfirst; [|done].
  cbn in Hrun.
  apply read_message_Some in Hfirst as (Hentry & Hbuf & Hpos).
  assert (Hloop : ∃ ms d2,
    (if 1 <? count
     then read_more (seq 1 (Z.to_nat count - 1)) [first] d1
     else Some ([first], d1)) = Some (ms, d2)
    ∧ length ms = Z.to_nat count ∧ consecutive ms
    ∧ from_table (buf data) (pos data) ms).
  { assert (Hc1 : consecutive [first]) by (by intros [|i] ???).
    assert (Ht1 : from_table (buf d1) (pos data) [first]).
    { intros [|i] m Hi; [|done]. simplify_eq/=. unfold table_entry.
      rewrite Hbuf. by replace (pos data + 8 * 0)%nat with (pos data) by lia. }
    destruct (1 <? count) eqn:Hgt.
    - destruct (read_more (seq 1 (Z.to_nat count - 1)) [first] d1)
        as [[ms d2]|] eqn:Hmore; [|done].
      eapply (read_more_spec (pos data)) in Hmore as (Hl & ? & ? & ? & ?);
        [|done|lia|done|done|lia].
      exists ms, d2. rewrite <- Hbuf. split_and!; [done| |done..].
      rewrite Hl. apply Z.ltb_lt in Hgt. lia.
    - apply Z.ltb_ge in Hgt. exists [first], d1. rewrite <- Hbuf.
      split_and!; [done| |done..]. simpl. lia. }
  destruct Hloop as (ms & d2 & Hloop & Hlen & Hc & Ht).
  rewrite Hloop in Hrun. cbn in Hrun.
  destruct (last ms) as [last_|] eqn:Hlast; [|done]. simplify_eq/=.
  assert (Hl : (length ms - 1 < length ms)%nat) by lia.
  split_and!.
  - by rewrite length_insert.
  - by apply consecutive_set_last.
  - intros m. rewrite last_lookup, length_insert.
    replace (Init.Nat.pred (length ms)) with (length ms - 1)%nat by lia.
    rewrite list_lookup_insert_eq by done. by intros [= <-].
  - intros i m Hi.
    destruct (decide (i = length ms - 1)%nat) as [->|Hne].
    + rewrite list_lookup_insert_eq in Hi by done. simplify_eq/=.
      apply Ht. rewrite <- Hlast, last_lookup. f_equal. lia.
    + rewrite list_lookup_insert_ne in Hi by done. by apply Ht.
Qed.

(** With the whole table inside the file, reading it cannot fail. *)
Lemma unpack_LL_total bs : length bs = 8%nat → is_Some (unpack_LL bs).
Proof.
  intros Hl. unfold unpack_LL. rewrite decide_True by done.
  do 9 (destruct bs as [|? bs]; simplify_eq/=). eauto.
Qed.

Lemma read_message_total data :
  (pos data + 8 ≤ length (buf data))%nat → is_Some (read_message data).
Proof.
  intros Hl. unfold read_message, read_LL, read.
  destruct (unpack_LL_total (take 8 (drop (pos data) (buf data)))) as [[a p] ->].
  { rewrite length_take, length_drop. lia. }
  by eexists.
Qed.

Lemma read_more_length ms : ∀ messages data messages' data',
  read_more ms messages data = Some (messages', data') →
  length messages' = (length messages + length ms)%nat.
Proof.
  induction ms as [|m ms IH]; intros messages data messages' data' Hrun.
  { simplify_eq/=. lia. }
  cbn [read_more] in Hrun.
  destruct (read_message data) as [[msg d1]|]; [|done]. cbn in Hrun.
  destruct ((messages ++ [msg]) !! m) as [cur|]; [|done]. cbn in Hrun.
  destruct ((messages ++ [msg]) !! (m - 1)%nat) as [prev|]; [|done].
  cbn in Hrun. apply IH in Hrun as ->.
  rewrite length_insert, length_app. simpl. lia.
Qed.

Lemma read_more_total n : ∀ k messages data,
  length messages = k → (1 ≤ k)%nat →
  (pos data + 8 * n ≤ length (buf data))%nat →
  is_Some (read_more (seq k n) messages data).
Proof.
  induction n as [|n IH]; intros k messages data Hlen Hk Hl; [by eexists|].
  cbn [seq read_more].
  destruct (read_message_total data) as [[msg d1] Hmsg]; [lia|].
  rewrite Hmsg. cbn.
  apply read_message_Some in Hmsg as (_ & Hbuf & Hpos).
  rewrite (lookup_app_r messages [msg] k) by lia.
  replace (k - length messages)%nat with 0%nat by lia. cbn.
  destruct (lookup_lt_is_Some_2 messages (k - 1)) as [prev Hprev]; [lia|].
  rewrite (lookup_app_l_Some _ _ _ _ Hprev). cbn.
  apply IH.
  - rewrite length_insert, length_app. simpl. lia.
  - lia.
  - rewrite Hbuf, Hpos. lia.
Qed.

Lemma read_pointer_table_total count sp data :
  1 ≤ count →
  (pos data + 8 * Z.to_nat count ≤ length (buf data))%nat →
  is_Some (read_pointer_table count sp data).
Proof.
  intros Hcount Hl. unfold read_pointer_table.
  destruct (read_message_total data) as [[first d1] Hfirst]; [lia|].
  rewrite Hfirst. cbn.
  apply read_message_Some in Hfirst as (_ & Hbuf & Hpos).
  assert (Hloop : ∃ ms d2,
    (if 1 <? count
     then read_more (seq 1 (Z.to_nat count - 1)) [first] d1
     else Some ([first], d1)) = Some (ms, d2) ∧ ms ≠ []).
  { destruct (1 <? count) eqn:Hgt.
    - destruct (read_more_total (Z.to_nat count - 1) 1 [first] d1)
        as [[ms d2] Hmore]; [done|lia|rewrite Hbuf, Hpos; lia|].
      exists ms, d2. split; [done|].
      apply read_more_length in Hmore. intros ->. simpl in Hmore. lia.
    - exists [first], d1. by split. }
  destruct Hloop as (ms & d2 & -> & Hne). cbn.
  destruct (last ms) eqn:Hlast; [by eexists|].
  by apply last_None in Hlast.
Qed.

Lemma read_layout_Some data lay d1 :
  read_layout (BytesIO_of data) = Some (lay, d1) →
  buf d1 = data
  ∧ pos d1 = (Z.to_nat (pointers_position lay) + 4)%nat
  ∧ string_position lay = HEADER_SIZE + data_length lay
  ∧ pointers_position lay = string_position lay + string_length lay
  ∧ unpack_L (take 4 (drop 4 data)) = Some (mystery lay)
  ∧ unpack_L (take 4 (drop 8 data)) = Some (data_length lay)
  ∧ unpack_L (take 4 (drop 12 data)) = Some (string_length lay)
  ∧ unpack_L (take 4 (drop (Z.to_nat (pointers_position lay)) data))
    = Some (message_count lay).
Proof.
  unfold read_layout. intros H.
  apply bind_Some in H as (d0 & E0 & H).
  apply bind_Some in H as ([m d2] & E1 & H).
  apply bind_Some in H as ([dl d3] & E2 & H).
  apply bind_Some in H as ([sl d4] & E3 & H).
  apply bind_Some in H as (d5 & E4 & H).
  apply bind_Some in H as ([mc d6] & E5 & H).
  unfold seek in E0. simplify_eq/=.
  apply read_L_Some in E1 as (U1 & B1 & P1), E2 as (U2 & B2 & P2),
    E3 as (U3 & B3 & P3), E5 as (U5 & B5 & P5).
  unfold seek in E4. case_match; [done|]. simplify_eq/=.
  change (Z.to_nat 4) with 4%nat in *.
  rewrite P2, P1 in U3. rewrite P1 in U2. rewrite B3, B2 in *.
  by split_and!.
Qed.

(** C1: in container decode, for a container with at least one message whose
    pointer table lies inside the file, reading the table succeeds, the
    messages carry the table's data offsets, every message but the last is
    given the length "next data offset minus own data offset", and the last
    one the length "string section start (0x34 + data_length) minus own data
    offset"; the pointers [0x34, 0x34+10, 0x34+10+5] with the string section
    at [0x34+10+5+7] give the lengths [10, 5, 7]. *)
Theorem derived_lengths data lay d1 :
  read_layout (BytesIO_of data) = Some (lay, d1) →
  1 ≤ message_count lay →
  (Z.to_nat (pointers_position lay) + 4 + 8 * Z.to_nat (message_count lay)
   ≤ length data)%nat →
  (∃ messages d2,
     read_pointer_table (message_count lay) (string_position lay) d1
       = Some (messages, d2)
     ∧ length messages = Z.to_nat (message_count lay)
     ∧ from_table data (Z.to_nat (pointers_position lay) + 4) messages
     ∧ (∀ i m m', messages !! i = Some m → messages !! S i = Some m' →
                  length_ m = pointer m' - pointer m)
     ∧ (∀ m, last messages = Some m →
             length_ m = 0x34 + data_length lay - pointer m))
  ∧ fmap (M:=option) (fmap (M:=list) pointer)
         (pointer_table_of example_container)
    = Some [0x34; 0x34 + 10; 0x34 + 10 + 5]
  ∧ fmap (M:=option) (fmap (M:=list) length_)
         (pointer_table_of example_container)
    = Some [10; 5; 7].
Proof.
  intros Hlay Hcount Hfits.
  apply read_layout_Some in Hlay as (Hbuf & Hpos & Hsp & _).
  split; [|by vm_compute].
  destruct (read_pointer_table_total (message_count lay) (string_position lay) d1)
    as [[messages d2] Hrun]; [done|rewrite Hbuf, Hpos; lia|].
  exists messages, d2. split; [done|].
  apply read_pointer_table_spec in Hrun as (Hlen & Hc & Hlast & Ht); [|done].
  rewrite Hbuf, Hpos in Ht. rewrite Hsp in Hlast. by split_and!.
Qed.

Lemma derived_lengths_witness :
  ∃ messages d2,
    read_pointer_table 3 (0x34 + 22)
      {| buf := example_container; pos := 0x34 + 22 + 4 + 4 |}
      = Some (messages, d2)
    ∧ length messages = 3%nat
    ∧ from_table example_container (0x34 + 22 + 4 + 4) messages
    ∧ (∀ i m m', messages !! i = Some m → messages !! S i = Some m' →
                 length_ m = pointer m' - pointer m)
    ∧ (∀ m, last messages = Some m → length_ m = 0x34 + 22 - pointer m).
Proof.
  refine (proj1 (derived_lengths example_container
    {| mystery := 0; data_length := 22; string_length := 4;
       string_position := 0x34 + 22; pointers_position := 0x34 + 22 + 4;
       message_count := 3 |}
    {| buf := example_container; pos := 0x34 + 22 + 4 + 4 |} _ _ _)).
  - reflexivity.
  - simpl. lia.
  - vm_compute. lia.
Defined.

(** ** The paths through [decode_1LMG] *)

Section DecodePaths.

Variable lib : Lib.
Variables (loadpath : string) (savepath : option string) (compress : Z).
Variables (w : World) (data : bytes).
Hypothesis Hfile : files w !! loadpath = Some data.

Lemma decode_plain :
  slice_to 4 data = MAGIC →
  decode_1LMG lib loadpath savepath compress w
  = decode_container lib loadpath savepath data w.
Proof.
  intros Hm. unfold decode_1LMG, open_1LMG. rewrite Hfile.
  by rewrite decide_False by (by intros []).
Qed.

Lemma decode_format_error :
  slice_to 4 data ≠ MAGIC → slice 5 9 data ≠ MAGIC →
  decode_1LMG lib loadpath savepath compress w
  = (Returned (-1), write_stderr (format_message loadpath) w).
Proof.
  intros H0 H5. unfold decode_1LMG, open_1LMG. rewrite Hfile.
  by rewrite decide_True, decide_False.
Qed.

Lemma decode_compressed_disabled :
  slice_to 4 data ≠ MAGIC → slice 5 9 data = MAGIC → compress ≤ 1 →
  decode_1LMG lib loadpath savepath compress w
  = (Returned (-1), write_stderr (compressed_message loadpath) w).
Proof.
  intros H0 H5 Hc. unfold decode_1LMG, open_1LMG. rewrite Hfile.
  rewrite !decide_True by done.
  by destruct (Z.ltb_spec 1 compress); [lia|].
Qed.

Lemma decode_decompression_failed :
  slice_to 4 data ≠ MAGIC → slice 5 9 data = MAGIC → 1 < compress →
  lz11_decompress lib data = None →
  decode_1LMG lib loadpath savepath compress w
  = (Returned (-3), write_stderr (decompression_message loadpath) (log_decompress data w)).
Proof.
  intros H0 H5 Hc Hz. unfold decode_1LMG, open_1LMG. rewrite Hfile.
  rewrite !decide_True by done.
  destruct (Z.ltb_spec 1 compress); [|lia]. by rewrite Hz.
Qed.

Lemma decode_decompressed plain :
  slice_to 4 data ≠ MAGIC → slice 5 9 data = MAGIC → 1 < compress →
  lz11_decompress lib data = Some plain →
  decode_1LMG lib loadpath savepath compress w
  = decode_container lib loadpath savepath plain (log_decompress data w).
Proof.
  intros H0 H5 Hc Hz. unfold decode_1LMG, open_1LMG. rewrite Hfile.
  rewrite !decide_True by done.
  destruct (Z.ltb_spec 1 compress); [|lia]. by rewrite Hz.
Qed.

End DecodePaths.

Lemma decode_container_empty lib loadpath savepath container w lay d :
  read_layout (BytesIO_of container) = Some (lay, d) →
  message_count lay = 0 →
  decode_container lib loadpath savepath container w
  = (Returned (-2), write_stderr (empty_message loadpath) w).
Proof.
  intros Hlay Hc. unfold decode_container. rewrite Hlay.
  by rewrite decide_True.
Qed.

(** Decoding a container calls no decompressor, and only a message count
    above zero lets it write. *)
Lemma decode_container_calls lib loadpath savepath container w :
  decompress_calls (decode_container lib loadpath savepath container w).2
  = decompress_calls w.
Proof.
  unfold decode_container.
  destruct (read_layout _) as [[lay d]|]; [|done].
  case_decide; [done|].
  destruct (decode_messages _ _ _) as [messages|]; [|done].
  by destruct savepath; case_decide.
Qed.

Lemma open_1LMG_inl lib loadpath data compress w container w' :
  open_1LMG lib loadpath data compress w = (inl container, w') →
  files w' = files w ∧ stderr w' = stderr w ∧ stdout w' = stdout w.
Proof.
  unfold open_1LMG. intros H.
  repeat case_decide; repeat case_match; by simplify_eq/=.
Qed.

Lemma decode_opened lib loadpath savepath compress w data container :
  files w !! loadpath = Some data →
  (open_1LMG lib loadpath data compress w).1 = inl container →
  ∃ w', files w' = files w ∧ stderr w' = stderr w ∧ stdout w' = stdout w
        ∧ decode_1LMG lib loadpath savepath compress w
          = decode_container lib loadpath savepath container w'.
Proof.
  intros Hfile Hopen. unfold decode_1LMG. rewrite Hfile.
  destruct (open_1LMG _ _ _ _ _) as [[c|rc] w'] eqn:E; simplify_eq/=.
  apply open_1LMG_inl in E as (? & ? & ?). by exists w'.
Qed.

(** ** Hand-made files *)

(** C3 (as stated, refuted): an input with the magic at offset 5, decoded
    with compression disabled, returns the very code of an input without
    any magic. *)
Lemma shared_return_code :
  slice_to 4 packed_junk ≠ MAGIC ∧ slice 5 9 packed_junk = MAGIC
  ∧ slice_to 4 junk ≠ MAGIC ∧ slice 5 9 junk ≠ MAGIC
  ∧ (decode_1LMG Sample.lib "packed" None 1 demo_disk).1 = Returned (-1)
  ∧ (decode_1LMG Sample.lib "junk" None 1 demo_disk).1 = Returned (-1).
Proof. by vm_compute. Qed.

(** C3 (amended): container decode returns -1 for a format error and for a
    compressed file met with compression disabled alike, -3 for a failed
    decompression and -2 for an empty resource; the return value separates
    these three classes, and the two failures sharing -1 differ in the
    message written to stderr. *)
Theorem return_codes lib loadpath savepath compress w data :
  files w !! loadpath = Some data →
  let r := decode_1LMG lib loadpath savepath compress w in
  (slice_to 4 data ≠ MAGIC → slice 5 9 data ≠ MAGIC →
   r.1 = Returned (-1) ∧ stderr r.2 = stderr w ++ [format_message loadpath])
  ∧ (slice_to 4 data ≠ MAGIC → slice 5 9 data = MAGIC → compress ≤ 1 →
     r.1 = Returned (-1)
     ∧ stderr r.2 = stderr w ++ [compressed_message loadpath])
  ∧ (slice_to 4 data ≠ MAGIC → slice 5 9 data = MAGIC → 1 < compress →
     lz11_decompress lib data = None →
     r.1 = Returned (-3)
     ∧ stderr r.2 = stderr w ++ [decompression_message loadpath])
  ∧ (∀ container lay d,
       (open_1LMG lib loadpath data compress w).1 = inl container →
       read_layout (BytesIO_of container) = Some (lay, d) →
       message_count lay = 0 →
       r.1 = Returned (-2)
       ∧ stderr r.2 = stderr w ++ [empty_message loadpath])
  ∧ Returned (-1) ≠ Returned (-3) ∧ Returned (-1) ≠ Returned (-2)
  ∧ Returned (-3) ≠ Returned (-2)
  ∧ format_message loadpath ≠ compressed_message loadpath.
Proof.
  intros Hfile r. subst r. split_and!; try done.
  - intros. by rewrite (decode_format_error _ _ _ _ _ data).
  - intros. by rewrite (decode_compressed_disabled _ _ _ _ _ data).
  - intros. by rewrite (decode_decompression_failed _ _ _ _ _ data).
  - intros container lay d Hopen Hlay Hcount.
    destruct (decode_opened lib loadpath savepath compress w data container)
      as (w' & _ & Herr & _ & ->); [done..|].
    rewrite (decode_container_empty _ _ _ _ _ lay d) by done.
    simpl. by rewrite Herr.
Qed.

Lemma return_codes_witness :
  (decode_1LMG Sample.lib "packed" None 1 demo_disk).1 = Returned (-1)
  ∧ stderr (decode_1LMG Sample.lib "packed" None 1 demo_disk).2
    = [compressed_message "packed"].
Proof.
  refine (proj1 (proj2 (return_codes Sample.lib "packed" None 1 demo_disk
                          packed_junk _)) _ _ _).
  - reflexivity.
  - by vm_compute.
  - reflexivity.
  - lia.
Defined.

(** C4: container decode checks the four bytes at offset 0 against "1LMG";
    with the magic there it decodes the file as it is.  Without it, it looks
    at offset 5: with the magic there and decompression enabled it calls the
    LZ11 decompressor on the file, returns the decompression error -3 when
    that raises and goes on with the decompressed bytes when it succeeds
    (with decompression disabled it returns -1 and calls nothing); with the
    magic at neither offset it returns the format error -1 and the
    decompressor is not called. *)
Theorem magic_check lib loadpath savepath compress w data :
  files w !! loadpath = Some data →
  let r := decode_1LMG lib loadpath savepath compress w in
  (slice_to 4 data = MAGIC →
   r = decode_container lib loadpath savepath data w
   ∧ decompress_calls r.2 = decompress_calls w)
  ∧ (slice_to 4 data ≠ MAGIC → slice 5 9 data = MAGIC → 1 < compress →
     decompress_calls r.2 = decompress_calls w ++ [data]
     ∧ (lz11_decompress lib data = None →
        r = (Returned (-3),
             write_stderr (decompression_message loadpath)
                          (log_decompress data w)))
     ∧ (∀ plain, lz11_decompress lib data = Some plain →
          r = decode_container lib loadpath savepath plain
                (log_decompress data w)))
  ∧ (slice_to 4 data ≠ MAGIC → slice 5 9 data = MAGIC → compress ≤ 1 →
     r = (Returned (-1), write_stderr (compressed_message loadpath) w)
     ∧ decompress_calls r.2 = decompress_calls w)
  ∧ (slice_to 4 data ≠ MAGIC → slice 5 9 data ≠ MAGIC →
     r = (Returned (-1), write_stderr (format_message loadpath) w)
     ∧ decompress_calls r.2 = decompress_calls w).
Proof.
  intros Hfile r. subst r. split_and!.
  - intros Hm. rewrite (decode_plain _ _ _ _ _ data) by done.
    split; [done|]. apply decode_container_calls.
  - intros H0 H5 Hc. split_and!.
    + destruct (lz11_decompress lib data) as [plain|] eqn:Hz.
      * rewrite (decode_decompressed _ _ _ _ _ data Hfile plain) by done.
        by rewrite decode_container_calls.
      * by rewrite (decode_decompression_failed _ _ _ _ _ data).
    + intros Hz. by rewrite (decode_decompression_failed _ _ _ _ _ data).
    + intros plain Hz. by rewrite (decode_decompressed _ _ _ _ _ data Hfile plain).
  - intros H0 H5 Hc. by rewrite (decode_compressed_disabled _ _ _ _ _ data).
  - intros H0 H5. by rewrite (decode_format_error _ _ _ _ _ data).
Qed.

Lemma magic_check_witness :
  decode_1LMG Sample.lib "packed" None 2 demo_disk
  = (Returned (-3),
     write_stderr (decompression_message "packed")
                  (log_decompress packed_junk demo_disk)).
Proof.
  refine (proj1 (proj2 (proj1 (proj2 (magic_check Sample.lib "packed" None 2
            demo_disk packed_junk _)) _ _ _)) _).
  - reflexivity.
  - by vm_compute.
  - reflexivity.
  - lia.
  - reflexivity.
Defined.

(** C6: a file that holds a valid container (the magic is there, or the file
    decompresses to a container, and the header can be read) whose message
    count is zero is answered with -2, the empty-resource code, which is not
    the format error's -1; nothing is written to a file or printed, only
    the message on stderr. *)
Theorem empty_resource lib loadpath savepath compress w data container lay d :
  files w !! loadpath = Some data →
  (open_1LMG lib loadpath data compress w).1 = inl container →
  read_layout (BytesIO_of container) = Some (lay, d) →
  message_count lay = 0 →
  let r := decode_1LMG lib loadpath savepath compress w in
  r.1 = Returned (-2)
  ∧ files r.2 = files w
  ∧ stdout r.2 = stdout w
  ∧ stderr r.2 = stderr w ++ [empty_message loadpath]
  ∧ (∀ w' loadpath' data',
       files w' !! loadpath' = Some data' →
       slice_to 4 data' ≠ MAGIC → slice 5 9 data' ≠ MAGIC →
       (decode_1LMG lib loadpath' savepath compress w').1 = Returned (-1)
       ∧ (decode_1LMG lib loadpath' savepath compress w').1 ≠ r.1).
Proof.
  intros Hfile Hopen Hlay Hcount r. subst r.
  destruct (decode_opened lib loadpath savepath compress w data container)
    as (w' & Hf & Herr & Hout & ->); [done..|].
  rewrite (decode_container_empty _ _ _ _ _ lay d) by done. simpl.
  rewrite Hf, Herr, Hout. split_and!; try done.
  intros w'' p' data' ???.
  by rewrite (decode_format_error _ _ _ _ _ data').
Qed.

Lemma empty_resource_witness :
  (decode_1LMG Sample.lib "empty" (Some "empty.txt") 2 demo_disk).1
  = Returned (-2)
  ∧ files (decode_1LMG Sample.lib "empty" (Some "empty.txt") 2 demo_disk).2
    = files demo_disk.
Proof.
  pose proof (empty_resource Sample.lib "empty" (Some "empty.txt") 2 demo_disk
    empty_container empty_container
    {| mystery := 0; data_length := 0; string_length := 4;
       string_position := 0x34; pointers_position := 0x34 + 4;
       message_count := 0 |}
    {| buf := empty_container; pos := 0x34 + 4 + 4 |}
    eq_refl eq_refl eq_refl eq_refl) as (H1 & H2 & _).
  exact (conj H1 H2).
Defined.

(** ** Python strings as lists of characters *)

Lemma chars_app s1 s2 : chars (s1 +:+ s2) = chars s1 ++ chars s2.
Proof.
  unfold chars. induction s1 as [|c s1 IH]; [done|].
  change (String c s1 +:+ s2) with (String c (s1 +:+ s2)).
  simpl. by f_equal.
Qed.

Lemma str_chars s : str (chars s) = s.
Proof. apply string_of_list_ascii_of_string. Qed.

Lemma chars_str l : chars (str l) = l.
Proof. apply list_ascii_of_string_of_list_ascii. Qed.

Lemma str_app l1 l2 : str (l1 ++ l2) = str l1 +:+ str l2.
Proof.
  rewrite <- (str_chars (str l1 +:+ str l2)).
  by rewrite chars_app, !chars_str.
Qed.

Lemma length_chars s : length (chars s) = String.length s.
Proof. induction s as [|c s IH]; [done|]. cbn. by rewrite <- IH. Qed.

(** [s[-(1+len(t)):] == t + '0'] says that [s] ends with [t + '0']. *)
Lemma ends_with_pad stop s :
  str_from (- (1 + len stop)) s = stop +:+ "0"
  ↔ ∃ t, s = t +:+ stop +:+ "0".
Proof.
  unfold str_from, slice_from, len.
  assert (Hi : slice_index (length (chars s))
                 (- (1 + Z.of_nat (String.length stop)))
               = (length (chars s) - (1 + String.length stop))%nat).
  { unfold slice_index. destruct (Z.ltb_spec (- (1 + Z.of_nat (String.length stop))) 0); lia. }
  rewrite Hi. split.
  - intros H. exists (str (take (length (chars s) - (1 + String.length stop))
                                (chars s))).
    rewrite <- H, <- str_app, take_drop. by rewrite str_chars.
  - intros [t ->]. rewrite !chars_app, !length_app, !length_chars.
    change (String.length "0") with 1%nat.
    rewrite drop_app_length'; [|rewrite length_chars; lia].
    by rewrite <- !chars_app, str_chars.
Qed.

(** [s[:-1]] drops the pad. *)
Lemma cut_pad t s : str_to (-1) (t +:+ s +:+ "0") = t +:+ s.
Proof.
  unfold str_to, slice_to. rewrite !chars_app, !length_app. simpl.
  assert (Hi : slice_index (length (chars t) + (length (chars s) + 1)) (-1)
               = length (chars t ++ chars s)).
  { unfold slice_index. rewrite length_app. simpl. lia. }
  rewrite Hi, (assoc_L (++)), take_app_length.
  by rewrite <- chars_app, str_chars.
Qed.

(** ** The alignment pad of the last message *)

Lemma strip_pad_strips lib messages m t :
  last messages = Some m →
  decoded m = t +:+ stop_token lib +:+ "0" →
  strip_pad lib 4 messages
  = Some (<[(length messages - 1)%nat :=
              set_decoded (t +:+ stop_token lib) m]> messages).
Proof.
  intros Hlast Hdec. unfold strip_pad. rewrite decide_True by done.
  rewrite Hlast. cbn.
  rewrite decide_True by (apply ends_with_pad; eauto).
  by rewrite Hdec, cut_pad.
Qed.

Lemma strip_pad_other_length lib string_length messages :
  string_length ≠ 4 → strip_pad lib string_length messages = Some messages.
Proof. intros. unfold strip_pad. by rewrite decide_False. Qed.

Lemma strip_pad_no_pad lib string_length messages m :
  last messages = Some m →
  (∀ t, decoded m ≠ t +:+ stop_token lib +:+ "0") →
  strip_pad lib string_length messages = Some messages.
Proof.
  intros Hlast Hno. unfold strip_pad. case_decide; [|done].
  rewrite Hlast. cbn. rewrite decide_False; [done|].
  intros [t Ht]%ends_with_pad. by eapply Hno.
Qed.

(** C5: when a decoded container has [string_length == 4] and the text of
    its last message ends with the stop marker's token followed by the
    character '0', decode removes exactly that last character before it
    emits the messages ("hello[STOP]0" becomes "hello[STOP]"); when
    [string_length != 4], or when the last message does not end that way,
    the messages are emitted as they were decoded. *)
Theorem trailing_pad lib loadpath savepath container w lay d messages m :
  read_layout (BytesIO_of container) = Some (lay, d) →
  message_count lay ≠ 0 →
  loaded_messages lib lay d = Some messages →
  last messages = Some m →
  let r := decode_container lib loadpath savepath container w in
  (string_length lay = 4 →
   ∀ t, decoded m = t +:+ stop_token lib +:+ "0" →
        r = (Returned 0,
             emit lib savepath
               (<[(length messages - 1)%nat :=
                    set_decoded (t +:+ stop_token lib) m]> messages) w))
  ∧ (string_length lay ≠ 4 →
     r = (Returned 1, emit lib savepath messages w))
  ∧ ((∀ t, decoded m ≠ t +:+ stop_token lib +:+ "0") →
     r = (if decide (string_length lay = 4) then Returned 0 else Returned 1,
          emit lib savepath messages w))
  ∧ strip_pad Sample.lib 4 [hello_message "hello[STOP]0"]
    = Some [hello_message "hello[STOP]"].
Proof.
  intros Hlay Hcount Hload Hlast r. subst r.
  unfold decode_container, decode_messages.
  rewrite Hlay, decide_False, Hload by done. cbn. split_and!.
  - intros H4 t Hdec. rewrite H4.
    by rewrite (strip_pad_strips _ _ m t).
  - intros H4. rewrite strip_pad_other_length by done.
    by rewrite decide_False.
  - intros Hno. rewrite (strip_pad_no_pad _ _ _ m) by done.
    by case_decide.
  - reflexivity.
Qed.

Lemma trailing_pad_witness :
  decode_container Sample.lib "hello" (Some "hello.txt") hello_container
    (disk [])
  = (Returned 0,
     write_file "hello.txt"
       (b (Sample.to_str (hello_message "hello[STOP]"))) (disk [])).
Proof.
  refine (proj1 (trailing_pad Sample.lib "hello" (Some "hello.txt")
    hello_container (disk [])
    {| mystery := 0; data_length := 14; string_length := 4;
       string_position := 0x34 + 14; pointers_position := 0x34 + 14 + 4;
       message_count := 1 |}
    {| buf := hello_container; pos := 0x34 + 14 + 4 + 4 |}
    [hello_message "hello[STOP]0"] (hello_message "hello[STOP]0")
    _ _ _ _) _ "hello" _).
  - reflexivity.
  - simpl. lia.
  - by vm_compute.
  - reflexivity.
  - reflexivity.
  - reflexivity.
Defined.

(** ** The text file's pieces *)

Lemma split_go_head sep s : ∀ skip cur,
  is_Some (split_go sep skip cur s !! 0%nat).
Proof.
  induction s as [|c s IH]; intros skip cur; [by eexists|].
  simpl. destruct skip; [|done]. case_match; [by eexists|done].
Qed.

Lemma split_head sep s : is_Some (split sep s !! 0%nat).
Proof. apply split_go_head. Qed.

Lemma alter_range {A} (f : A → A) n : ∀ a (l : list A),
  length (foldl (λ l i, alter f i l) l (seq a n)) = length l
  ∧ ∀ j, foldl (λ l i, alter f i l) l (seq a n) !! j
         = if decide (a ≤ j < a + n)%nat then f <$> l !! j else l !! j.
Proof.
  induction n as [|n IH]; intros a l.
  { split; [done|]. intros j. simpl. by rewrite decide_False by lia. }
  cbn [seq foldl]. destruct (IH (S a) (alter f a l)) as [Hlen Hj].
  split; [by rewrite Hlen, length_alter|].
  intros j. rewrite Hj.
  destruct (decide (j = a)) as [->|Hne].
  - rewrite decide_False, decide_True by lia. by rewrite list_lookup_alter_eq.
  - rewrite list_lookup_alter_ne by done.
    destruct (decide (S a ≤ j < S a + n)%nat).
    + by rewrite decide_True by lia.
    + by rewrite decide_False by lia.
Qed.

Lemma clean_pieces_length data : length (clean_pieces data) = length data.
Proof. apply alter_range. Qed.

Lemma clean_pieces_lookup data j :
  clean_pieces data !! j
  = if decide (j < length data - 1)%nat then cut_last_line <$> data !! j
    else data !! j.
Proof.
  unfold clean_pieces. rewrite (proj2 (alter_range _ _ _ _)).
  destruct (decide (j < length data - 1)%nat).
  - by rewrite decide_True by lia.
  - by rewrite decide_False by lia.
Qed.

Lemma collect_spec c : ∀ a data acc,
  (2 * (a + c) ≤ length data)%nat →
  ∃ built,
    collect ((λ k, 2 * k)%nat <$> seq a c) data acc = Some (acc ++ built)
    ∧ length built = c
    ∧ ∀ k, (k < c)%nat →
        ∃ pl pt lab,
          data !! (2 * (a + k))%nat = Some pl
          ∧ data !! (2 * (a + k) + 1)%nat = Some pt
          ∧ split " Position" pl !! 0%nat = Some lab
          ∧ built !! k = Some (text_Message lab pt).
Proof.
  induction c as [|c IH]; intros a data acc Hlen.
  { exists []. rewrite app_nil_r. split_and!; [done..|]. intros k ?. lia. }
  cbn [seq fmap list_fmap collect].
  destruct (lookup_lt_is_Some_2 data (2 * a)) as [pl Hpl]; [lia|].
  destruct (lookup_lt_is_Some_2 data (2 * a + 1)) as [pt Hpt]; [lia|].
  destruct (split_head " Position" pl) as [lab Hlab].
  rewrite Hpl. cbn [mbind option_bind]. rewrite Hlab. cbn [mbind option_bind].
  rewrite list_lookup_insert_eq by lia. cbn [mbind option_bind].
  rewrite list_lookup_insert_ne, Hpt by lia. cbn [mbind option_bind].
  destruct (IH (S a) (<[(2 * a)%nat := lab]> data)
              (acc ++ [text_Message lab pt])) as (built & Hrun & Hb & Hk).
  { rewrite length_insert. lia. }
  exists (text_Message lab pt :: built). split_and!.
  - rewrite Hrun. by rewrite <- (assoc_L (++)).
  - simpl. lia.
  - intros [|k] Hlt.
    + exists pl, pt, lab. rewrite Nat.add_0_r. by split_and!.
    + destruct (Hk k) as (pl' & pt' & lab' & H1 & H2 & H3 & H4); [lia|].
      exists pl', pt', lab'.
      rewrite list_lookup_insert_ne in H1 by lia.
      rewrite list_lookup_insert_ne in H2 by lia.
      replace (2 * (a + S k))%nat with (2 * (S a + k))%nat by lia.
      by split_and!.
Qed.

Lemma parse_text_odd text :
  Z.of_nat (length (pieces text)) mod 2 ≠ 0 → parse_text text = Some (inl ()).
Proof. intros. unfold parse_text. by rewrite decide_True. Qed.

Lemma parse_text_even text :
  Z.of_nat (length (pieces text)) mod 2 = 0 →
  ∃ messages,
    parse_text text = Some (inr messages)
    ∧ (2 * length messages = length (pieces text))%nat
    ∧ ∀ k, (k < length messages)%nat →
        ∃ p q lab,
          pieces text !! (2 * k)%nat = Some p
          ∧ pieces text !! (2 * k + 1)%nat = Some q
          ∧ split " Position" (cut_last_line p) !! 0%nat = Some lab
          ∧ messages !! k
            = Some (text_Message lab
                      (if decide (2 * k + 1 < length (pieces text) - 1)%nat
                       then cut_last_line q else q)).
Proof.
  intros Heven. unfold parse_text. rewrite decide_False by (by intros []).
  set (data := pieces text) in *.
  assert (∃ c, length data = (2 * c)%nat) as [c Hc].
  { exists (Z.to_nat (Z.of_nat (length data) / 2)).
    pose proof (Z.div_mod (Z.of_nat (length data)) 2). lia. }
  unfold range2. rewrite clean_pieces_length, Hc.
  replace (2 * c + 1)%nat with (S (2 * c)) by lia.
  rewrite Nat.div2_succ_double.
  destruct (collect_spec c 0 (clean_pieces data) []) as (built & -> & Hb & Hk).
  { rewrite clean_pieces_length. lia. }
  exists built. cbn [mbind option_bind app]. split_and!; [done|lia|].
  intros k Hlt. destruct (Hk k) as (pl & pt & lab & H1 & H2 & H3 & H4); [lia|].
  change (0 + k)%nat with k in H1, H2.
  rewrite clean_pieces_lookup in H1, H2.
  rewrite decide_True in H1 by lia.
  destruct (data !! (2 * k)%nat) as [p|] eqn:Hp; [|done].
  destruct (data !! (2 * k + 1)%nat) as [q|] eqn:Hq; [|by case_decide].
  exists p, q, lab. injection H1 as <-.
  split_and!; [done..|]. rewrite H4. do 2 f_equal.
  rewrite <- Hc.
  destruct (decide (2 * k + 1 < length data - 1)%nat); by injection H2.
Qed.

(** C7: the text is split at the [===] lines, the piece before the first
    one is dropped, and an odd number of remaining pieces makes encode
    return -1, the structural error, with the file system untouched; with an
    even number the pieces are taken pairwise, label then text, one message
    per pair, and encode goes on to build the file from these messages. *)
Theorem segment_parity lib loadpath savepath compress w raw text :
  files w !! loadpath = Some raw →
  read_text lib raw = Some text →
  let data := pieces text in
  let r := encode_1LMG lib loadpath savepath compress w in
  (Z.of_nat (length data) mod 2 ≠ 0 →
   r.1 = Returned (-1) ∧ files r.2 = files w
   ∧ stderr r.2 = stderr w ++ [mismatch_message loadpath])
  ∧ (Z.of_nat (length data) mod 2 = 0 →
     ∃ messages,
       (2 * length messages = length data)%nat
       ∧ (∀ k, (k < length messages)%nat →
            ∃ p q lab,
              data !! (2 * k)%nat = Some p
              ∧ data !! (2 * k + 1)%nat = Some q
              ∧ split " Position" (cut_last_line p) !! 0%nat = Some lab
              ∧ messages !! k
                = Some (text_Message lab
                          (if decide (2 * k + 1 < length data - 1)%nat
                           then cut_last_line q else q)))
       ∧ r = encode_messages lib loadpath savepath compress messages w).
Proof.
  intros Hfile Htext data r. subst data r. unfold encode_1LMG.
  rewrite Hfile. cbn [mbind option_bind]. rewrite Htext. split.
  - intros Hodd. by rewrite parse_text_odd.
  - intros Heven.
    destruct (parse_text_even text Heven) as (messages & -> & Hlen & Hk).
    by exists messages.
Qed.

Lemma segment_parity_witness :
  (encode_1LMG Sample.lib "lone.txt" "lone.1lmg" 1
     (disk [("lone.txt", b lone_label)])).1 = Returned (-1)
  ∧ files (encode_1LMG Sample.lib "lone.txt" "lone.1lmg" 1
             (disk [("lone.txt", b lone_label)])).2
    = files (disk [("lone.txt", b lone_label)]).
Proof.
  pose proof (proj1 (segment_parity Sample.lib "lone.txt" "lone.1lmg" 1
    (disk [("lone.txt", b lone_label)]) (b lone_label) lone_label
    eq_refl eq_refl)) as H.
  destruct H as (H1 & H2 & _); [by vm_compute|].
  exact (conj H1 H2).
Defined.

(** ** struct.pack *)

Lemma pack_L_Some x : 0 ≤ x < 2 ^ 32 → is_Some (pack_L x).
Proof.
  intros [H0 H1]. unfold pack_L.
  destruct (Z.leb_spec 0 x); [|lia]. destruct (Z.ltb_spec x (2 ^ 32)); [|lia].
  by eexists.
Qed.

Lemma pack_L_range x bs : pack_L x = Some bs → 0 ≤ x < 2 ^ 32.
Proof.
  unfold pack_L. destruct (Z.leb_spec 0 x); [|done].
  destruct (Z.ltb_spec x (2 ^ 32)); [|done]. lia.
Qed.

Lemma pack_L_length x bs : pack_L x = Some bs → length bs = 4%nat.
Proof. unfold pack_L. case_match; [|done]. by intros [= <-]. Qed.

Lemma pack_LL_Some x y :
  0 ≤ x < 2 ^ 32 → 0 ≤ y < 2 ^ 32 → is_Some (pack_LL x y).
Proof.
  intros Hx Hy. unfold pack_LL.
  destruct (pack_L_Some x Hx) as [bx ->], (pack_L_Some y Hy) as [by_ ->].
  by eexists.
Qed.

Lemma pack_LL_inv x y bs :
  pack_LL x y = Some bs →
  ∃ bx by_, pack_L x = Some bx ∧ pack_L y = Some by_ ∧ bs = bx ++ by_.
Proof.
  unfold pack_LL. intros H.
  destruct (pack_L x) as [bx|]; [|done].
  destruct (pack_L y) as [by_|]; [|done].
  simplify_eq/=. by exists bx, by_.
Qed.

Lemma pack_LL_length x y bs : pack_LL x y = Some bs → length bs = 8%nat.
Proof.
  intros (bx & by_ & Hx & Hy & ->)%pack_LL_inv.
  rewrite length_app. by rewrite (pack_L_length _ _ Hx), (pack_L_length _ _ Hy).
Qed.

Lemma pack_LLL_inv x y z bs :
  pack_LLL x y z = Some bs →
  ∃ bx by_ bz, pack_L x = Some bx ∧ pack_L y = Some by_ ∧ pack_L z = Some bz
               ∧ bs = bx ++ by_ ++ bz.
Proof.
  unfold pack_LLL. intros H.
  destruct (pack_L x) as [bx|]; [|done].
  destruct (pack_L y) as [by_|]; [|done].
  destruct (pack_L z) as [bz|]; [|done].
  simplify_eq/=. by exists bx, by_, bz.
Qed.

(** ** Building the sections *)

Lemma pad4_spec section :
  ∃ z, pad4 section = section ++ zeros z ∧ (z < 4)%nat
       ∧ Z.of_nat (length (pad4 section)) mod 4 = 0.
Proof.
  unfold pad4.
  pose proof (Z.mod_pos_bound (Z.of_nat (length section)) 4 ltac:(lia)) as Hb.
  case_decide as Hz.
  - exists (Z.to_nat (4 - Z.of_nat (length section) mod 4)).
    split_and!; [done|lia|].
    rewrite length_app. unfold zeros. rewrite length_replicate.
    rewrite Nat2Z.inj_add, Z2Nat.id by lia.
    rewrite (Z.div_mod (Z.of_nat (length section)) 4) at 1 by lia.
    replace (4 * (Z.of_nat (length section) / 4)
             + Z.of_nat (length section) mod 4
             + (4 - Z.of_nat (length section) mod 4))
      with ((Z.of_nat (length section) / 4 + 1) * 4) by lia.
    apply Z.mod_mul. lia.
  - exists 0%nat. rewrite app_nil_r. split_and!; [done|lia|].
    destruct (decide (Z.of_nat (length section) mod 4 = 0)); [done|].
    by destruct Hz.
Qed.

Section Build.

Variable lib : Lib.

Lemma build_complete messages : ∀ s s',
  build lib messages s = Complete s' →
  ∃ payloads entries,
    Forall2 (λ m p, encode lib m = inl p) messages payloads
    ∧ Forall2 (λ (_ : Message) e, length e = 8%nat) messages entries
    ∧ table s' = table s ++ concat entries
    ∧ data s' = data s ++ concat payloads
    ∧ labels s' = labels s ++ concat (label_bytes lib <$> messages)
    ∧ ∀ k e, entries !! k = Some e →
        pack_LL
          (Z.of_nat (length (labels s
                             ++ concat (label_bytes lib <$> take k messages))))
          (Z.of_nat (length (data s ++ concat (take k payloads))) + 0x34)
        = Some e.
Proof.
  induction messages as [|message rest IH]; intros s s' Hrun.
  { simplify_eq/=. exists [], []. rewrite !app_nil_r.
    split_and!; [done..|]. by intros ??. }
  cbn [build] in Hrun.
  destruct (pack_LL _ _) as [entry|] eqn:Hentry; [|done].
  destruct (encode lib message) as [e|e] eqn:He; [|done].
  apply IH in Hrun as (payloads & entries & Hp & He8 & Ht & Hd & Hl & Hk).
  cbn [table data labels] in *.
  exists (e :: payloads), (entry :: entries). split_and!.
  - by constructor.
  - constructor; [by eapply pack_LL_length|done].
  - rewrite Ht. cbn [concat]. by rewrite <- (assoc_L (++)).
  - rewrite Hd. cbn [concat]. by rewrite <- (assoc_L (++)).
  - rewrite Hl. cbn [fmap list_fmap concat]. unfold label_bytes at 2.
    by rewrite <- !(assoc_L (++)).
  - intros [|k] e' Hlook.
    + simplify_eq/=. by rewrite !app_nil_r.
    + cbn [lookup list_lookup] in Hlook. apply Hk in Hlook.
      cbn [take fmap list_fmap concat]. unfold label_bytes at 1.
      rewrite <- !(assoc_L (++)) in Hlook. by rewrite <- !(assoc_L (++)).
Qed.

(** The first message that does not encode ends the loop, provided the
    offsets up to it fit in 32 bits. *)
Lemma build_error good : ∀ payloads bad rest e s,
  Forall2 (λ m p, encode lib m = inl p) good payloads →
  encode lib bad = inr e →
  Z.of_nat (length (labels s ++ concat (label_bytes lib <$> good))) < 2 ^ 32 →
  Z.of_nat (length (data s ++ concat payloads)) + 0x34 < 2 ^ 32 →
  build lib (good ++ bad :: rest) s = EncodingError e.
Proof.
  induction good as [|m good IH]; intros payloads bad rest e s Hgood Hbad Hl Hd.
  - cbn [app build].
    destruct (pack_LL_Some (Z.of_nat (length (labels s)))
                (Z.of_nat (length (data s)) + 0x34)) as [entry ->].
    { rewrite length_app in Hl. lia. }
    { rewrite length_app in Hd. lia. }
    by rewrite Hbad.
  - inversion Hgood as [|? p ? payloads' Hm Hrest]; subst.
    cbn [app build].
    destruct (pack_LL_Some (Z.of_nat (length (labels s)))
                (Z.of_nat (length (data s)) + 0x34)) as [entry ->].
    { rewrite length_app in Hl. lia. }
    { rewrite length_app in Hd. lia. }
    rewrite Hm. apply (IH payloads'); [done..| |]; cbn [labels data].
    + cbn [fmap list_fmap concat] in Hl. unfold label_bytes in Hl at 1.
      rewrite <- !(assoc_L (++)) in Hl. by rewrite <- !(assoc_L (++)).
    + cbn [concat] in Hd. by rewrite <- !(assoc_L (++)).
Qed.

(** Whatever the sizes, a message that does not encode keeps the loop from
    completing. *)
Lemma build_incomplete good bad rest e s s' :
  encode lib bad = inr e →
  build lib (good ++ bad :: rest) s ≠ Complete s'.
Proof.
  intros Hbad Hrun.
  apply build_complete in Hrun as (payloads & _ & Hp & _).
  apply Forall2_app_inv_l in Hp as (? & ? & _ & Hp & _).
  inversion Hp; subst. congruence.
Qed.

End Build.

(** ** The container built by [encode_container] *)

Lemma length_concat_entries (messages : list Message) (entries : list bytes) :
  Forall2 (λ _ e, length e = 8%nat) messages entries →
  length entries = length messages
  ∧ length (concat entries) = (8 * length messages)%nat.
Proof.
  induction 1 as [|m e ms es He _ [IH1 IH2]]; [done|].
  cbn [concat length]. rewrite length_app, He, IH1, IH2. lia.
Qed.

Lemma labels_before_all lib messages :
  labels_before lib messages (length messages)
  = (b "*" ++ zeros 1) ++ concat (label_bytes lib <$> messages).
Proof. unfold labels_before. by rewrite firstn_all, <- (assoc_L (++)). Qed.

Lemma encode_container_inv lib messages out :
  encode_container lib messages = Container out →
  ∃ payloads count entries fields,
    Forall2 (λ m p, encode lib m = inl p) messages payloads
    ∧ pack_L (Z.of_nat (length messages)) = Some count
    ∧ Forall2 (λ _ e, length e = 8%nat) messages entries
    ∧ (∀ k e, entries !! k = Some e →
         pack_LL (Z.of_nat (length (labels_before lib messages k)))
                 (Z.of_nat (length (data_before payloads k)) + 0x34)
         = Some e)
    ∧ pack_LLL (Z.of_nat (length (pad4 (concat payloads))))
               (Z.of_nat (length strings))
               (Z.of_nat (length (count ++ concat entries))
                + Z.of_nat (length (pad4 (labels_before lib messages
                                            (length messages)))))
      = Some fields
    ∧ out = (b "1LMG" ++ zeros 4 ++ fields ++ zeros 0x20)
            ++ pad4 (concat payloads) ++ strings
            ++ (count ++ concat entries)
            ++ pad4 (labels_before lib messages (length messages)).
Proof.
  unfold encode_container. intros Hrun.
  destruct (pack_L _) as [count|] eqn:Hcount; [|done].
  destruct (build _ _ _) as [s| |] eqn:Hbuild; [|done..].
  apply build_complete in Hbuild
    as (payloads & entries & Hp & He8 & Ht & Hd & Hl & Hk).
  cbn [table data labels app] in Ht, Hd, Hl, Hk.
  rewrite Ht, Hd, Hl, <- labels_before_all in Hrun.
  unfold build_header in Hrun.
  destruct (pack_LLL _ _ _) as [fields|] eqn:Hfields; [|done].
  cbn [mbind option_bind] in Hrun. simplify_eq.
  exists payloads, count, entries, fields. split_and!; [done..| |done|done].
  intros k e Hlook. apply Hk in Hlook.
  unfold labels_before, data_before. by rewrite <- (assoc_L (++)) in Hlook.
Qed.

(** C8: for every list of messages that encodes, the output is, in this
    order, the 52-byte header, the data buffer (the payloads in order) padded
    with zeros to a multiple of 4, the 4-byte placeholder string section, the
    pointer table and the label buffer padded with zeros to a multiple of 4;
    the header's table length field is 4 + message_count*8 + the label
    buffer's length, and the table's pair for a message holds the length of
    the label buffer before that message's label is appended and the length
    of the data buffer before its payload is appended plus 0x34. *)
Theorem container_layout lib messages out :
  encode_container lib messages = Container out →
  ∃ payloads count entries fields z_data z_labels,
    let n := length messages in
    let data := concat payloads ++ zeros z_data in
    let labels := labels_before lib messages n ++ zeros z_labels in
    let table := count ++ concat entries in
    let header := b "1LMG" ++ zeros 4 ++ fields ++ zeros 0x20 in
    Forall2 (λ m p, encode lib m = inl p) messages payloads
    ∧ out = header ++ data ++ (b "*" ++ zeros 3) ++ table ++ labels
    ∧ length header = 52%nat
    ∧ (z_data < 4)%nat ∧ Z.of_nat (length data) mod 4 = 0
    ∧ (z_labels < 4)%nat ∧ Z.of_nat (length labels) mod 4 = 0
    ∧ pack_LLL (Z.of_nat (length data)) 4
               (4 + Z.of_nat n * 8 + Z.of_nat (length labels))
      = Some fields
    ∧ pack_L (Z.of_nat n) = Some count
    ∧ length entries = n
    ∧ ∀ k e, entries !! k = Some e →
        pack_LL (Z.of_nat (length (labels_before lib messages k)))
                (Z.of_nat (length (data_before payloads k)) + 0x34)
        = Some e.
Proof.
  intros (payloads & count & entries & fields
          & Hp & Hcount & He8 & Hk & Hfields & ->)%encode_container_inv.
  destruct (pad4_spec (concat payloads)) as (zd & Hd & Hzd & Hmd).
  destruct (pad4_spec (labels_before lib messages (length messages)))
    as (zl & Hl & Hzl & Hml).
  destruct (length_concat_entries _ _ He8) as [Hn He].
  rewrite Hd, Hl in *.
  exists payloads, count, entries, fields, zd, zl. cbn zeta.
  split_and!; try done.
  - apply pack_LLL_inv in Hfields as (? & ? & ? & H1 & H2 & H3 & ->).
    rewrite !length_app, (pack_L_length _ _ H1), (pack_L_length _ _ H2),
      (pack_L_length _ _ H3). done.
  - rewrite <- Hfields. f_equal.
    rewrite (length_app count), (pack_L_length _ _ Hcount), He. lia.
Qed.

Lemma container_layout_witness :
  ∃ payloads count entries fields z_data z_labels,
    Forall2 (λ m p, Sample.encode m = inl p) two_messages payloads
    ∧ two_messages_container
      = (b "1LMG" ++ zeros 4 ++ fields ++ zeros 0x20)
        ++ (concat payloads ++ zeros z_data) ++ (b "*" ++ zeros 3)
        ++ (count ++ concat entries)
        ++ (labels_before Sample.lib two_messages 2 ++ zeros z_labels).
Proof.
  destruct (container_layout Sample.lib two_messages two_messages_container
              eq_refl)
    as (payloads & count & entries & fields & zd & zl & H1 & H2 & _).
  exists payloads, count, entries, fields, zd, zl. exact (conj H1 H2).
Defined.

(** ** A message that does not encode *)

Lemma encode_container_error lib good payloads bad rest e :
  Forall2 (λ m p, encode lib m = inl p) good payloads →
  encode lib bad = inr e →
  (∀ out, encode_container lib (good ++ bad :: rest) ≠ Container out)
  ∧ (Z.of_nat (length (good ++ bad :: rest)) < 2 ^ 32 →
     Z.of_nat (length (labels_before lib good (length good))) < 2 ^ 32 →
     Z.of_nat (length (concat payloads)) + 0x34 < 2 ^ 32 →
     encode_container lib (good ++ bad :: rest) = EncodeFailed e).
Proof.
  intros Hgood Hbad. unfold encode_container. split.
  - intros out. destruct (pack_L _) as [count|]; [|done].
    destruct (build _ _ _) as [s| |] eqn:Hbuild; [|done..].
    by apply build_incomplete with (e := e) in Hbuild.
  - intros Hn Hl Hd.
    destruct (pack_L_Some (Z.of_nat (length (good ++ bad :: rest))))
      as [count ->]; [lia|].
    rewrite (build_error lib good payloads bad rest e); [done..| |done].
    cbn [labels]. by rewrite <- labels_before_all.
Qed.

(** C9: when a message of the input does not encode (its encoder returns a
    description of the error instead of bytes), container encode does not
    succeed and leaves the file system as it was: the output file is written
    only once every message has encoded.  It returns -3 and reports the
    error of the first such message, as long as the message count and the
    offsets of the messages before it fit the table's 32-bit fields (when
    they do not, [struct.pack] raises before the message is reached). *)
Theorem first_encode_error lib loadpath savepath compress w raw text
    good payloads bad rest e :
  files w !! loadpath = Some raw →
  read_text lib raw = Some text →
  parse_text text = Some (inr (good ++ bad :: rest)) →
  Forall2 (λ m p, encode lib m = inl p) good payloads →
  encode lib bad = inr e →
  let r := encode_1LMG lib loadpath savepath compress w in
  files r.2 = files w
  ∧ (r.1 = Returned (-3) ∨ r.1 = Raised)
  ∧ (Z.of_nat (length (good ++ bad :: rest)) < 2 ^ 32 →
     Z.of_nat (length (labels_before lib good (length good))) < 2 ^ 32 →
     Z.of_nat (length (concat payloads)) + 0x34 < 2 ^ 32 →
     r = (Returned (-3),
          write_stderr (encoding_error_message loadpath e) w)).
Proof.
  intros Hfile Htext Hparse Hgood Hbad r. subst r.
  unfold encode_1LMG, encode_messages.
  rewrite Hfile. cbn [mbind option_bind]. rewrite Htext, Hparse.
  destruct (encode_container_error lib good payloads bad rest e Hgood Hbad)
    as [Hnot Hfits].
  split_and!.
  - destruct (encode_container _ _) as [out| |]; [by destruct (Hnot out)|done..].
  - destruct (encode_container _ _) as [out| |]; [by destruct (Hnot out)|auto..].
  - intros Hn Hl Hd. by rewrite Hfits.
Qed.

Lemma first_encode_error_witness :
  encode_1LMG Sample.lib "broken.txt" "broken.1lmg" 1
    (disk [("broken.txt", b broken_text)])
  = (Returned (-3),
     write_stderr
       (encoding_error_message "broken.txt" "Unknown character: !")
       (disk [("broken.txt", b broken_text)])).
Proof.
  refine (proj2 (proj2 (first_encode_error Sample.lib "broken.txt"
    "broken.1lmg" 1 (disk [("broken.txt", b broken_text)])
    (b broken_text) broken_text
    [text_Message "intro" "hello[STOP]"] [hello_payload_12]
    (text_Message "b2" "bye!") [] "Unknown character: !" _ _ _ _ _)) _ _ _).
  - reflexivity.
  - reflexivity.
  - by vm_compute.
  - repeat constructor.
  - reflexivity.
  - by vm_compute.
  - by vm_compute.
  - by vm_compute.
Defined.

(** ** Reading back what [struct.pack] wrote *)

Lemma byte_val_of_Z z : byte_val (byte_of_Z z) = z mod 256.
Proof.
  unfold byte_val, byte_of_Z.
  pose proof (Z.mod_pos_bound z 256 ltac:(lia)) as Hb.
  destruct (Byte.of_N (Z.to_N (z mod 256))) as [x|] eqn:E.
  - apply Byte.to_of_N in E. cbn [from_option id]. rewrite E. lia.
  - apply Byte.of_N_None_iff in E. lia.
Qed.

Lemma unpack_pack_L x bs : pack_L x = Some bs → unpack_L bs = Some x.
Proof.
  intros Hpack. pose proof (pack_L_range _ _ Hpack) as Hx.
  unfold pack_L in Hpack. case_match; [|done]. simplify_eq.
  cbn [unpack_L]. rewrite !byte_val_of_Z. f_equal.
  change (2 ^ 8) with 256. change (2 ^ 16) with 65536.
  change (2 ^ 24) with 16777216. change (2 ^ 32) with 4294967296 in Hx.
  Z.div_mod_to_equations. lia.
Qed.

Lemma field_at {A} (l pre x post : list A) n m :
  l = pre ++ x ++ post → length pre = n → length x = m →
  take m (drop n l) = x.
Proof. intros -> <- <-. by rewrite drop_app_length, take_app_length. Qed.

(** The header can be read whenever its four fields can. *)
Lemma read_layout_intro data m dl sl mc :
  unpack_L (take 4 (drop 4 data)) = Some m →
  unpack_L (take 4 (drop 8 data)) = Some dl →
  unpack_L (take 4 (drop 12 data)) = Some sl →
  0 ≤ HEADER_SIZE + dl + sl →
  unpack_L (take 4 (drop (Z.to_nat (HEADER_SIZE + dl + sl)) data)) = Some mc →
  read_layout (BytesIO_of data)
  = Some ({| mystery := m; data_length := dl; string_length := sl;
             string_position := HEADER_SIZE + dl;
             pointers_position := HEADER_SIZE + dl + sl;
             message_count := mc |},
          {| buf := data;
             pos := Z.to_nat (HEADER_SIZE + dl + sl) + 4 |}).
Proof.
  intros Hm Hdl Hsl Hpos Hmc.
  assert (Hlen : ∀ n v, unpack_L (take 4 (drop n data)) = Some v →
                        length (take 4 (drop n data)) = 4%nat).
  { intros n v H.
    destruct (take 4 (drop n data)) as [|? [|? [|? [|? [|? ?]]]]];
      by simplify_eq/=. }
  unfold read_layout, seek, read_L, read, BytesIO_of.
  cbn [buf pos mbind option_bind Z.ltb Z.compare].
  change (Z.to_nat 4) with 4%nat.
  rewrite Hm. cbn [mbind option_bind buf pos]. rewrite (Hlen _ _ Hm).
  change (4 + 4)%nat with 8%nat.
  rewrite Hdl. cbn [mbind option_bind buf pos]. rewrite (Hlen _ _ Hdl).
  change (8 + 4)%nat with 12%nat.
  rewrite Hsl. cbn [mbind option_bind buf pos].
  destruct (Z.ltb_spec (HEADER_SIZE + dl + sl) 0); [lia|].
  cbn [mbind option_bind buf pos].
  rewrite Hmc. cbn [mbind option_bind buf pos]. by rewrite (Hlen _ _ Hmc).
Qed.

(** ** Reading an encoded container *)

Ltac same_list := subst; by rewrite <- ?(assoc_L (++)).

Lemma encoded_read_layout lib messages out :
  encode_container lib messages = Container out →
  ∃ dl d,
    0 ≤ dl
    ∧ read_layout (BytesIO_of out)
      = Some ({| mystery := 0; data_length := dl; string_length := 4;
                 string_position := HEADER_SIZE + dl;
                 pointers_position := HEADER_SIZE + dl + 4;
                 message_count := Z.of_nat (length messages) |}, d)
    ∧ buf d = out
    ∧ take 4 (drop 4 out) = zeros 4
    ∧ (∃ pre post, out = pre ++ strings ++ post
                   ∧ Z.of_nat (length pre) = HEADER_SIZE + dl)
    ∧ (pos d + 8 * length messages ≤ length out)%nat
    ∧ slice_to 4 out = MAGIC.
Proof.
  intros (payloads & count & entries & fields
          & Hp & Hcount & He8 & Hk & Hfields & Hout)%encode_container_inv.
  apply pack_LLL_inv in Hfields as (f1 & f2 & f3 & H1 & H2 & H3 & ->).
  destruct (length_concat_entries _ _ He8) as [_ Hentries].
  set (D := pad4 (concat payloads)) in *.
  set (L := pad4 (labels_before lib messages (length messages))) in *.
  set (E := concat entries) in *.
  pose proof (pack_L_length _ _ H1) as L1.
  pose proof (pack_L_length _ _ H2) as L2.
  pose proof (pack_L_length _ _ H3) as L3.
  pose proof (pack_L_length _ _ Hcount) as Lc.
  assert (Hmagic : length (b "1LMG") = 4%nat) by done.
  assert (Hz4 : length (zeros 4) = 4%nat) by done.
  assert (Hz32 : length (zeros 0x20) = 32%nat) by done.
  assert (Hstr : length strings = 4%nat) by done.
  set (dl := Z.of_nat (length D)).
  assert (Hpp : Z.to_nat (HEADER_SIZE + dl + 4) = (52 + length D + 4)%nat).
  { unfold HEADER_SIZE, dl. lia. }
  exists dl, {| buf := out; pos := Z.to_nat (HEADER_SIZE + dl + 4) + 4 |}.
  assert (Hmystery : take 4 (drop 4 out) = zeros 4).
  { apply (field_at out (b "1LMG") (zeros 4)
             (((f1 ++ f2 ++ f3) ++ zeros 0x20) ++ D ++ strings
              ++ (count ++ E) ++ L)); [same_list|done..]. }
  assert (Hf1 : take 4 (drop 8 out) = f1).
  { apply (field_at out (b "1LMG" ++ zeros 4) f1
             ((f2 ++ f3) ++ zeros 0x20 ++ D ++ strings ++ (count ++ E) ++ L));
      [same_list|by rewrite length_app|done]. }
  assert (Hf2 : take 4 (drop 12 out) = f2).
  { apply (field_at out (b "1LMG" ++ zeros 4 ++ f1) f2
             (f3 ++ zeros 0x20 ++ D ++ strings ++ (count ++ E) ++ L));
      [same_list|by rewrite !length_app, L1|done]. }
  assert (Hfc : take 4 (drop (52 + length D + 4) out) = count).
  { apply (field_at out
             ((b "1LMG" ++ zeros 4 ++ (f1 ++ f2 ++ f3) ++ zeros 0x20)
              ++ D ++ strings) count (E ++ L)); [same_list| |done].
    rewrite !length_app, L1, L2, L3, Hmagic, Hz4, Hz32, Hstr. lia. }
  split_and!.
  - lia.
  - apply read_layout_intro.
    + by rewrite Hmystery.
    + rewrite Hf1. by apply unpack_pack_L.
    + rewrite Hf2. by apply unpack_pack_L.
    + unfold HEADER_SIZE, dl. lia.
    + rewrite Hpp, Hfc. by apply unpack_pack_L.
  - done.
  - done.
  - exists ((b "1LMG" ++ zeros 4 ++ (f1 ++ f2 ++ f3) ++ zeros 0x20) ++ D),
      ((count ++ E) ++ L).
    split; [same_list|].
    rewrite !length_app, L1, L2, L3, Hmagic, Hz4, Hz32.
    unfold HEADER_SIZE, dl. lia.
  - cbn [pos]. rewrite Hpp, Hout.
    rewrite !length_app, L1, L2, L3, Lc, Hmagic, Hz4, Hz32, Hstr.
    fold E. rewrite Hentries. lia.
  - unfold slice_to, slice_index. cbn [Z.ltb Z.compare].
    replace (Z.to_nat (4 `min` Z.of_nat (length out))) with 4%nat.
    + rewrite Hout, <- !(assoc_L (++)). by apply take_app_length'.
    + rewrite Hout, !length_app, Hmagic. lia.
Qed.

(** ** What a successful encode has written *)

Lemma encode_1LMG_success lib loadpath savepath compress w w' :
  encode_1LMG lib loadpath savepath compress w = (Returned 0, w') →
  ∃ messages out,
    encode_container lib messages = Container out
    ∧ if decide (compressing savepath compress)
      then files w' !! savepath = lz11_compress lib out
      else files w' !! savepath = Some out.
Proof.
  unfold encode_1LMG, encode_messages, save. intros Hrun.
  destruct (files w !! loadpath ≫= read_text lib) as [text|]; [|done].
  destruct (parse_text text) as [[[]|messages]|]; [done| |done].
  destruct (encode_container lib messages) as [out|e|] eqn:Hout; [|done..].
  exists messages, out. split; [done|].
  destruct (decide (compressing savepath compress)).
  - destruct (lz11_compress lib out) as [packed|]; [|done].
    simplify_eq/=. by rewrite lookup_insert_eq.
  - simplify_eq/=. by rewrite lookup_insert_eq.
Qed.

(** ** The mystery field *)

(** C2 (as stated, refuted): a container whose mystery field is 7 decodes,
    its text encodes again, and the new container's mystery field is 0. *)
Lemma mystery_lost :
  mystery_field mystery_container = Some 7
  ∧ mystery_decoded.1 = Returned 0
  ∧ mystery_encoded.1 = Returned 0
  ∧ files mystery_encoded.2 !! "back.1lmg" ≫= mystery_field = Some 0.
Proof. by vm_compute. Qed.

(** C2 (amended): the mystery field does not survive a round trip.  Decode
    reads it and drops it, and the encoder writes four zero bytes as the
    mystery field of every container it builds; the re-encoded container's
    mystery field equals the original's exactly when the original's is
    zero. *)
Theorem mystery_zeroed lib loadpath savepath compress w w' original lay0 d0 :
  read_layout (BytesIO_of original) = Some (lay0, d0) →
  encode_1LMG lib loadpath savepath compress w = (Returned 0, w') →
  ∃ out,
    (if decide (compressing savepath compress)
     then files w' !! savepath = lz11_compress lib out
     else files w' !! savepath = Some out)
    ∧ slice 4 8 out = zeros 4
    ∧ mystery_field out = Some 0
    ∧ (∃ lay d, read_layout (BytesIO_of out) = Some (lay, d)
                ∧ mystery lay = 0
                ∧ (mystery lay = mystery lay0 ↔ mystery lay0 = 0)).
Proof.
  intros _ (messages & out & Hout & Hsave)%encode_1LMG_success.
  exists out. split; [exact Hsave|].
  apply encoded_read_layout in Hout
    as (dl & d & Hdl & Hlay & _ & Hm & (pre & post & Hout & Hpre) & _ & _).
  assert (Hslice : slice 4 8 out = zeros 4).
  { unfold slice, slice_index. cbn [Z.ltb Z.compare].
    assert (52 ≤ Z.of_nat (length out)).
    { rewrite Hout, length_app. unfold HEADER_SIZE in Hpre. lia. }
    replace (Z.to_nat (4 `min` Z.of_nat (length out))) with 4%nat by lia.
    replace (Z.to_nat (8 `min` Z.of_nat (length out))) with 8%nat by lia.
    exact Hm. }
  split_and!; [done|unfold mystery_field; by rewrite Hslice|].
  eexists _, d. split; [exact Hlay|]. cbn [mystery]. split; [done|].
  split; congruence.
Qed.

Lemma mystery_zeroed_witness :
  ∃ out,
    files mystery_encoded.2 !! "back.1lmg" = Some out
    ∧ slice 4 8 out = zeros 4
    ∧ mystery_field out = Some 0.
Proof.
  destruct (mystery_zeroed Sample.lib "m.txt" "back.1lmg" 1 mystery_decoded.2
              mystery_encoded.2 mystery_container
              {| mystery := 7; data_length := 20; string_length := 4;
                 string_position := 0x34 + 20;
                 pointers_position := 0x34 + 20 + 4; message_count := 2 |}
              {| buf := mystery_container; pos := 0x34 + 20 + 4 + 4 |}
              eq_refl eq_refl) as (out & H0 & H1 & H2 & _).
  exists out. exact (conj H0 (conj H1 H2)).
Defined.

(** ** Decoding what the encoder wrote *)

(** C10 (as stated, refuted): an empty text file encodes to a container
    without messages, and decoding that container returns -2, not 0. *)
Lemma blank_output_is_empty :
  blank_encoded.1 = Returned 0
  ∧ length <$> files blank_encoded.2 !! "blank.1lmg" = Some 64%nat
  ∧ (decode_1LMG Sample.lib "blank.1lmg" None 2 blank_encoded.2).1
    = Returned (-2).
Proof. by vm_compute. Qed.

(** C10 (amended): every container the encoder builds has the 4-byte string
    section "*", 0, 0, 0 right after its data, and 4 in its string_length
    field; decoding such a container never returns 1, the partial-fidelity
    code.  With no message in it (an empty text) decode returns -2; with at
    least one message the pointer table is read, and decode takes the
    string_length == 4 path and returns 0 unless the message-level label
    read or decode raises. *)
Theorem fixed_string_section lib messages out :
  encode_container lib messages = Container out →
  ∃ lay d,
    read_layout (BytesIO_of out) = Some (lay, d)
    ∧ string_length lay = 4
    ∧ message_count lay = Z.of_nat (length messages)
    ∧ (∃ pre post, out = pre ++ (b "*" ++ zeros 3) ++ post
                   ∧ Z.of_nat (length pre) = string_position lay
                   ∧ string_position lay = 0x34 + data_length lay)
    ∧ (messages ≠ [] →
       is_Some (read_pointer_table (message_count lay) (string_position lay) d))
    ∧ ∀ loadpath savepath compress w,
        files w !! loadpath = Some out →
        let r := decode_1LMG lib loadpath savepath compress w in
        r.1 ≠ Returned 1
        ∧ (messages = [] →
           r = (Returned (-2), write_stderr (empty_message loadpath) w))
        ∧ (messages ≠ [] →
           r = match decode_messages lib lay d with
               | Some decoded_ => (Returned 0, emit lib savepath decoded_ w)
               | None => (Raised, w)
               end).
Proof.
  intros (dl & d & Hdl & Hlay & Hbuf & _ & (pre & post & Hout & Hpre) & Hfit
          & Hmagic)%encoded_read_layout.
  eexists _, d. split; [exact Hlay|]. cbn [string_length message_count
    string_position data_length].
  split_and!; [done..| | |].
  - exists pre, post. by split_and!.
  - intros Hne. apply read_pointer_table_total.
    + destruct messages; [done|]. cbn [length]. lia.
    + rewrite Hbuf, Nat2Z.id. exact Hfit.
  - intros loadpath savepath compress w Hfile.
    cbn zeta. rewrite (decode_plain _ _ _ _ _ out) by done.
    unfold decode_container. rewrite Hlay.
    cbn [message_count string_length].
    destruct messages as [|m messages].
    + rewrite decide_True by done. split_and!; [done..|]. by intros [].
    + rewrite decide_False by (cbn [length]; lia).
      destruct (decode_messages lib _ d) as [decoded_|];
        [rewrite decide_True by done|]; by split_and!.
Qed.

Lemma fixed_string_section_witness :
  ∃ lay d,
    read_layout (BytesIO_of two_messages_container) = Some (lay, d)
    ∧ string_length lay = 4
    ∧ message_count lay = 2.
Proof.
  destruct (fixed_string_section Sample.lib two_messages
              two_messages_container eq_refl)
    as (lay & d & H1 & H2 & H3 & _).
  exists lay, d. exact (conj H1 (conj H2 H3)).
Defined.

(** * Further properties of the two programs *)

(** ** The sections of an encoded container, and its layout as decode reads
    it *)

Lemma encoded_sections lib messages out :
  encode_container lib messages = Container out →
  ∃ payloads entries count fields zd zl,
    Forall2 (λ m p, encode lib m = inl p) messages payloads
    ∧ Forall2 (λ _ e, length e = 8%nat) messages entries
    ∧ (∀ k e, entries !! k = Some e →
         pack_LL (Z.of_nat (length (labels_before lib messages k)))
                 (Z.of_nat (length (data_before payloads k)) + 0x34)
         = Some e)
    ∧ length count = 4%nat
    ∧ (zd < 4)%nat
    ∧ Z.of_nat (length (concat payloads ++ zeros zd)) mod 4 = 0
    ∧ (zl < 4)%nat
    ∧ Z.of_nat (length (labels_before lib messages (length messages)
                        ++ zeros zl)) mod 4 = 0
    ∧ pack_LLL (Z.of_nat (length (concat payloads ++ zeros zd))) 4
        (4 + Z.of_nat (length messages) * 8
         + Z.of_nat (length (labels_before lib messages (length messages)
                             ++ zeros zl)))
      = Some fields
    ∧ out = (b "1LMG" ++ zeros 4 ++ fields ++ zeros 0x20)
            ++ (concat payloads ++ zeros zd) ++ strings
            ++ count ++ concat entries
            ++ (labels_before lib messages (length messages) ++ zeros zl)
    ∧ read_layout (BytesIO_of out)
      = Some ({| mystery := 0;
                 data_length := Z.of_nat (length (concat payloads ++ zeros zd));
                 string_length := 4;
                 string_position :=
                   HEADER_SIZE + Z.of_nat (length (concat payloads ++ zeros zd));
                 pointers_position :=
                   HEADER_SIZE + Z.of_nat (length (concat payloads ++ zeros zd))
                   + 4;
                 message_count := Z.of_nat (length messages) |},
              {| buf := out;
                 pos := 52 + length (concat payloads ++ zeros zd) + 4 + 4 |}).
Proof.
  intros Henc.
  destruct (encoded_read_layout _ _ _ Henc)
    as (dl & d & Hdl & Hlay & _).
  apply encode_container_inv in Henc
    as (payloads & count & entries & fields
        & Hp & Hcount & He8 & Hk & Hfields & Hout).
  destruct (pad4_spec (concat payloads)) as (zd & Hd & Hzd & Hmd).
  destruct (pad4_spec (labels_before lib messages (length messages)))
    as (zl & Hl & Hzl & Hml).
  destruct (length_concat_entries _ _ He8) as [Hn He].
  rewrite Hd, Hl in *.
  set (D := concat payloads ++ zeros zd) in *.
  set (L := labels_before lib messages (length messages) ++ zeros zl) in *.
  assert (Hfields' :
    pack_LLL (Z.of_nat (length D)) 4
      (4 + Z.of_nat (length messages) * 8 + Z.of_nat (length L))
    = Some fields).
  { rewrite <- Hfields. f_equal.
    rewrite (length_app count), (pack_L_length _ _ Hcount), He. lia. }
  assert (Hdata : dl = Z.of_nat (length D)).
  { pose proof (read_layout_Some _ _ _ Hlay) as (_ & _ & _ & _ & _ & H8 & _).
    cbn [data_length] in H8.
    apply pack_LLL_inv in Hfields as (f1 & f2 & f3 & H1 & H2 & H3 & ->).
    assert (Hf1 : take 4 (drop 8 out) = f1).
    { apply (field_at out (b "1LMG" ++ zeros 4) f1
               ((f2 ++ f3) ++ zeros 0x20 ++ D ++ strings
                ++ (count ++ concat entries) ++ L));
        [same_list|done|by eapply pack_L_length]. }
    rewrite Hf1, (unpack_pack_L _ _ H1) in H8. congruence. }
  subst dl.
  pose proof (read_layout_Some _ _ _ Hlay) as (Hbuf & Hpos & _).
  cbn [pointers_position] in Hpos.
  exists payloads, entries, count, fields, zd, zl.
  split_and!; try done.
  - by eapply pack_L_length.
  - rewrite Hout. subst D L. by rewrite <- !(assoc_L (++)).
  - rewrite Hlay. do 2 f_equal. destruct d as [bf ps]. cbn in Hbuf, Hpos.
    subst bf. f_equal. rewrite Hpos. fold D. unfold HEADER_SIZE. lia.
Qed.

Lemma unpack_pack_LL x y e : pack_LL x y = Some e → unpack_LL e = Some (x, y).
Proof.
  intros (bx & by_ & Hx & Hy & ->)%pack_LL_inv.
  pose proof (pack_L_length _ _ Hx) as Lx.
  pose proof (pack_L_length _ _ Hy) as Ly.
  unfold unpack_LL. rewrite decide_True by (rewrite length_app; lia).
  rewrite take_app_length', drop_app_length' by done.
  by rewrite (unpack_pack_L _ _ Hx), (unpack_pack_L _ _ Hy).
Qed.

(** Entry [k] of a table of 8-byte entries starts at byte [8 * k]. *)
Lemma concat_entry (entries : list bytes) : ∀ k e (rest : bytes),
  Forall (λ e, length e = 8%nat) entries →
  entries !! k = Some e →
  take 8 (drop (8 * k) (concat entries ++ rest)) = e.
Proof.
  induction entries as [|e0 entries IH]; intros k e rest Hall Hk; [done|].
  apply Forall_cons in Hall as [H0 Hall]. cbn [concat].
  destruct k as [|k].
  - simplify_eq/=. rewrite <- (assoc_L (++)). by apply take_app_length'.
  - cbn [lookup list_lookup] in Hk. rewrite <- (assoc_L (++)).
    replace (8 * S k)%nat with (8 + 8 * k)%nat by lia.
    rewrite drop_app_add' by done. by apply IH.
Qed.

Lemma Forall2_entries_Forall (messages : list Message) (entries : list bytes) :
  Forall2 (λ _ e, length e = 8%nat) messages entries →
  Forall (λ e, length e = 8%nat) entries.
Proof. induction 1; by constructor. Qed.

Lemma length_data_before_S (payloads : list bytes) k p :
  payloads !! k = Some p →
  length (data_before payloads (S k))
  = (length (data_before payloads k) + length p)%nat.
Proof.
  intros Hk. unfold data_before. rewrite (take_S_r _ _ _ Hk), concat_app.
  rewrite length_app. cbn [concat]. by rewrite app_nil_r.
Qed.

Lemma data_before_all (payloads : list bytes) :
  data_before payloads (length payloads) = concat payloads.
Proof. unfold data_before. by rewrite firstn_all. Qed.

(** The pointer table of an encoded container, read back by decode. *)
Lemma encoded_table lib messages out :
  encode_container lib messages = Container out →
  messages ≠ [] →
  ∃ payloads zd lay d table d',
    Forall2 (λ m p, encode lib m = inl p) messages payloads
    ∧ (zd < 4)%nat
    ∧ (Z.of_nat (length (concat payloads)) + Z.of_nat zd) mod 4 = 0
    ∧ read_layout (BytesIO_of out) = Some (lay, d)
    ∧ string_position lay
      = 0x34 + Z.of_nat (length (concat payloads)) + Z.of_nat zd
    ∧ message_count lay = Z.of_nat (length messages)
    ∧ read_pointer_table (message_count lay) (string_position lay) d
      = Some (table, d')
    ∧ length table = length messages
    ∧ consecutive table
    ∧ (∀ m, last table = Some m → length_ m = string_position lay - pointer m)
    ∧ ∀ k m, table !! k = Some m →
        label_pointer m = Z.of_nat (length (labels_before lib messages k))
        ∧ pointer m = 0x34 + Z.of_nat (length (data_before payloads k)).
Proof.
  intros (payloads & entries & count & fields & zd & zl & Hp & He8 & Hk & Lc
          & Hzd & Hmd & _ & _ & Hfields & Hout & Hlay)%encoded_sections Hne.
  destruct (length_concat_entries _ _ He8) as [Hn He].
  apply Forall2_entries_Forall in He8.
  apply pack_LLL_inv in Hfields as (f1 & f2 & f3 & H1 & H2 & H3 & ->).
  pose proof (pack_L_length _ _ H1) as L1.
  pose proof (pack_L_length _ _ H2) as L2.
  pose proof (pack_L_length _ _ H3) as L3.
  set (D := concat payloads ++ zeros zd) in *.
  set (L := labels_before lib messages (length messages) ++ zeros zl) in *.
  set (start := (52 + length D + 4 + 4)%nat) in *.
  assert (Hcount : 1 ≤ Z.of_nat (length messages)).
  { destruct messages; [done|]. cbn [length]. lia. }
  assert (Hpre : length ((b "1LMG" ++ zeros 4 ++ (f1 ++ f2 ++ f3) ++ zeros 0x20)
                         ++ D ++ strings ++ count) = start).
  { rewrite !length_app, L1, L2, L3, Lc.
    change (length (b "1LMG")) with 4%nat. change (length (zeros 4)) with 4%nat.
    change (length (zeros 0x20)) with 32%nat.
    change (length strings) with 4%nat. unfold start. lia. }
  assert (Hout' : out = ((b "1LMG" ++ zeros 4 ++ (f1 ++ f2 ++ f3) ++ zeros 0x20)
                         ++ D ++ strings ++ count) ++ concat entries ++ L).
  { rewrite Hout. by rewrite <- !(assoc_L (++)). }
  destruct (read_pointer_table_total (Z.of_nat (length messages))
              (HEADER_SIZE + Z.of_nat (length D))
              {| buf := out; pos := start |}) as [[table d'] Hrun]; [done| |].
  { cbn [buf pos]. rewrite Hout', length_app, Hpre, length_app, He, Nat2Z.id.
    lia. }
  pose proof (read_pointer_table_spec _ _ _ _ _ Hrun Hcount)
    as (Hlen & Hc & Hlast & Ht).
  cbn [buf pos] in Ht. rewrite Nat2Z.id in Hlen.
  eexists payloads, zd, _, _, table, d'.
  split_and!; [done|done| |exact Hlay| |done|exact Hrun|done|done|exact Hlast|].
  - unfold D in Hmd. rewrite length_app in Hmd. unfold zeros in Hmd.
    by rewrite length_replicate, Nat2Z.inj_add in Hmd.
  - cbn [string_position]. unfold HEADER_SIZE, D. rewrite length_app.
    unfold zeros. rewrite length_replicate. lia.
  - intros k m Hm. apply Ht in Hm as Hentry. unfold table_entry in Hentry.
    destruct (lookup_lt_is_Some_2 entries k) as [e Hek].
    { apply lookup_lt_Some in Hm. lia. }
    assert (Hat : take 8 (drop (start + 8 * k) out) = e).
    { rewrite Hout', drop_app_add' by done. by apply concat_entry. }
    rewrite Hat, (unpack_pack_LL _ _ _ (Hk _ _ Hek)) in Hentry.
    injection Hentry as <- <-. split; [done|lia].
Qed.

Lemma payloads_unique lib (messages : list Message) : ∀ payloads payloads',
  Forall2 (λ m p, encode lib m = inl p) messages payloads →
  Forall2 (λ m p, encode lib m = inl p) messages payloads' →
  payloads = payloads'.
Proof.
  induction messages as [|m messages IH]; intros ps ps' H1 H2;
    inversion H1; inversion H2; subst; [done|].
  f_equal; [congruence|by apply IH].
Qed.

Lemma length_data_before_le (payloads : list bytes) i j :
  (i ≤ j)%nat →
  (length (data_before payloads i) ≤ length (data_before payloads j))%nat.
Proof.
  intros Hij. unfold data_before.
  replace j with (i + (j - i))%nat by lia.
  rewrite <- take_take_drop, concat_app, length_app. lia.
Qed.

Lemma length_labels_before_S lib (messages : list Message) k m :
  messages !! k = Some m →
  length (labels_before lib messages (S k))
  = (length (labels_before lib messages k)
     + length (str_encode lib (label m)) + 1)%nat.
Proof.
  intros Hk. unfold labels_before.
  rewrite (take_S_r _ _ _ Hk), fmap_app, concat_app, !length_app.
  cbn [fmap list_fmap concat]. rewrite app_nil_r. unfold label_bytes at 2.
  rewrite length_app. change (length (zeros 1)) with 1%nat. lia.
Qed.

Lemma length_labels_before_le lib (messages : list Message) i j :
  (i ≤ j)%nat →
  (length (labels_before lib messages i)
   ≤ length (labels_before lib messages j))%nat.
Proof.
  intros Hij. unfold labels_before.
  replace j with (i + (j - i))%nat by lia.
  rewrite <- take_take_drop, fmap_app, concat_app, !length_app. lia.
Qed.

(** X1: decoding a container built by encode reads back a pointer table
    whose derived lengths are the payload lengths: message [k] gets the
    length of its encoded payload, and the last message that length plus
    the zero bytes that align the data section (fewer than 4). *)
Theorem encoded_lengths lib messages out :
  encode_container lib messages = Container out →
  messages ≠ [] →
  ∃ payloads pad lay d table d',
    Forall2 (λ m p, encode lib m = inl p) messages payloads
    ∧ (pad < 4)%nat
    ∧ (Z.of_nat (length (concat payloads)) + Z.of_nat pad) mod 4 = 0
    ∧ read_layout (BytesIO_of out) = Some (lay, d)
    ∧ read_pointer_table (message_count lay) (string_position lay) d
      = Some (table, d')
    ∧ length table = length messages
    ∧ ∀ k m p, table !! k = Some m → payloads !! k = Some p →
        length_ m
        = Z.of_nat (length p)
          + (if decide (S k = length messages) then Z.of_nat pad else 0).
Proof.
  intros Henc Hne.
  destruct (encoded_table _ _ _ Henc Hne)
    as (payloads & pad & lay & d & table & d' & Hp & Hpad & Hmod & Hlay & Hsp
        & _ & Hrun & Hlen & Hc & Hlast & Hptr).
  exists payloads, pad, lay, d, table, d'.
  split_and!; [done..|].
  intros k m p Hm Hpk.
  pose proof (Forall2_length _ _ _ Hp) as Hlp.
  destruct (Hptr _ _ Hm) as [_ Hpm].
  pose proof (length_data_before_S _ _ _ Hpk) as HS.
  case_decide as Hk.
  - rewrite (Hlast m), Hsp, Hpm.
    + rewrite <- (data_before_all payloads), <- Hlp, <- Hk, HS. lia.
    + rewrite last_lookup, <- Hm. f_equal. lia.
  - destruct (lookup_lt_is_Some_2 table (S k)) as [m' Hm'].
    { apply lookup_lt_Some in Hm. lia. }
    rewrite (Hc _ _ _ Hm Hm'). destruct (Hptr _ _ Hm') as [_ ->].
    rewrite Hpm, HS. lia.
Qed.

Lemma encoded_lengths_witness :
  ∃ payloads pad lay d table d',
    Forall2 (λ m p, Sample.encode m = inl p) two_messages payloads
    ∧ (pad < 4)%nat
    ∧ read_layout (BytesIO_of two_messages_container) = Some (lay, d)
    ∧ read_pointer_table (message_count lay) (string_position lay) d
      = Some (table, d')
    ∧ length table = 2%nat.
Proof.
  destruct (encoded_lengths Sample.lib two_messages two_messages_container
              eq_refl ltac:(discriminate))
    as (payloads & pad & lay & d & table & d' & H1 & H2 & _ & H3 & H4 & H5 & _).
  exists payloads, pad, lay, d, table, d'.
  exact (conj H1 (conj H2 (conj H3 (conj H4 H5)))).
Defined.

(** X2: in the pointer table of a container built by encode, the data
    offsets never decrease and the label offsets strictly increase from one
    message to the next, every data offset lies between the header's end and
    the string section, and so every derived length is at least 0. *)
Theorem encoded_offsets_ascend lib messages out :
  encode_container lib messages = Container out →
  messages ≠ [] →
  ∃ lay d table d',
    read_layout (BytesIO_of out) = Some (lay, d)
    ∧ read_pointer_table (message_count lay) (string_position lay) d
      = Some (table, d')
    ∧ (∀ i j m m', (i < j)%nat → table !! i = Some m → table !! j = Some m' →
         pointer m ≤ pointer m' ∧ label_pointer m < label_pointer m')
    ∧ (∀ k m, table !! k = Some m →
         0x34 ≤ pointer m ≤ string_position lay ∧ 2 ≤ label_pointer m
         ∧ 0 ≤ length_ m).
Proof.
  intros Henc Hne.
  destruct (encoded_table _ _ _ Henc Hne)
    as (payloads & pad & lay & d & table & d' & Hp & Hpad & Hmod & Hlay & Hsp
        & _ & Hrun & Hlen & Hc & Hlast & Hptr).
  pose proof (Forall2_length _ _ _ Hp) as Hlp.
  exists lay, d, table, d'. split_and!; [done..| |].
  - intros i j m m' Hij Hi Hj.
    destruct (Hptr _ _ Hi) as [Hli Hpi], (Hptr _ _ Hj) as [Hlj Hpj].
    rewrite Hli, Hpi, Hlj, Hpj.
    pose proof (length_data_before_le payloads i j ltac:(lia)).
    split; [lia|].
    destruct (lookup_lt_is_Some_2 messages i) as [mi Hmi].
    { apply lookup_lt_Some in Hi. lia. }
    pose proof (length_labels_before_S lib _ _ _ Hmi).
    pose proof (length_labels_before_le lib messages (S i) j ltac:(lia)).
    lia.
  - intros k m Hm. destruct (Hptr _ _ Hm) as [Hl Hpm].
    destruct (lookup_lt_is_Some_2 payloads k) as [p Hpk].
    { apply lookup_lt_Some in Hm. lia. }
    pose proof (length_data_before_S _ _ _ Hpk) as HS.
    pose proof (length_data_before_le payloads (S k) (length payloads)
                  ltac:(apply lookup_lt_Some in Hpk; lia)) as Hle.
    rewrite data_before_all in Hle.
    assert (Hbound : pointer m ≤ string_position lay) by lia.
    split_and!; [lia|done| |].
    + rewrite Hl. unfold labels_before. rewrite !length_app.
      change (length (b "*")) with 1%nat. change (length (zeros 1)) with 1%nat.
      lia.
    + destruct (decide (S k = length table)) as [Hk|Hk].
      * rewrite (Hlast m); [lia|].
        rewrite last_lookup, <- Hm. f_equal. lia.
      * destruct (lookup_lt_is_Some_2 table (S k)) as [m' Hm'].
        { apply lookup_lt_Some in Hm. lia. }
        rewrite (Hc _ _ _ Hm Hm'). destruct (Hptr _ _ Hm') as [_ ->].
        rewrite Hpm, HS. lia.
Qed.

Lemma encoded_offsets_ascend_witness :
  ∃ lay d table d',
    read_layout (BytesIO_of two_messages_container) = Some (lay, d)
    ∧ read_pointer_table (message_count lay) (string_position lay) d
      = Some (table, d').
Proof.
  destruct (encoded_offsets_ascend Sample.lib two_messages
              two_messages_container eq_refl ltac:(discriminate))
    as (lay & d & table & d' & H1 & H2 & _).
  exists lay, d, table, d'. exact (conj H1 H2).
Defined.

Lemma concat_split (payloads : list bytes) k p :
  payloads !! k = Some p →
  concat payloads
  = data_before payloads k ++ p ++ concat (drop (S k) payloads).
Proof.
  intros Hk. unfold data_before.
  rewrite <- (take_drop_middle _ _ _ Hk) at 1.
  by rewrite concat_app.
Qed.

Lemma labels_before_split lib (messages : list Message) k m :
  messages !! k = Some m →
  labels_before lib messages (length messages)
  = labels_before lib messages k ++ label_bytes lib m
    ++ concat (label_bytes lib <$> drop (S k) messages).
Proof.
  intros Hk. unfold labels_before. rewrite firstn_all.
  rewrite <- (take_drop_middle _ _ _ Hk) at 1.
  rewrite fmap_app, concat_app. cbn [fmap list_fmap concat].
  by rewrite <- !(assoc_L (++)).
Qed.

(** X3: in a container built by encode, the offsets that decode reads from
    the pointer table locate what encode wrote: the bytes at a message's
    data offset are its encoded payload, and the bytes at its label offset,
    counted from the label section's start as decode computes it, are its
    encoded label followed by the zero byte. *)
Theorem pointers_locate_bytes lib messages out :
  encode_container lib messages = Container out →
  messages ≠ [] →
  ∃ payloads lay d table d',
    Forall2 (λ m p, encode lib m = inl p) messages payloads
    ∧ read_layout (BytesIO_of out) = Some (lay, d)
    ∧ read_pointer_table (message_count lay) (string_position lay) d
      = Some (table, d')
    ∧ ∀ k t m p,
        table !! k = Some t → messages !! k = Some m → payloads !! k = Some p →
        let labels_position :=
          pointers_position lay + (4 + message_count lay * 8) in
        take (length p) (drop (Z.to_nat (pointer t)) out) = p
        ∧ take (length (str_encode lib (label m) ++ zeros 1))
               (drop (Z.to_nat (labels_position + label_pointer t)) out)
          = str_encode lib (label m) ++ zeros 1.
Proof.
  intros Henc Hne.
  destruct (encoded_table _ _ _ Henc Hne)
    as (payloads & pad & lay & d & table & d' & Hp & _ & _ & Hlay & _
        & _ & Hrun & _ & _ & _ & Hptr).
  destruct (encoded_sections _ _ _ Henc)
    as (payloads' & entries & count & fields & zd & zl & Hp' & He8 & _ & Lc
        & _ & _ & _ & _ & Hfields & Hout & Hlay').
  rewrite <- (payloads_unique _ _ _ _ Hp Hp') in *. clear Hp'.
  rewrite Hlay in Hlay'. injection Hlay' as -> _.
  destruct (length_concat_entries _ _ He8) as [_ He].
  apply pack_LLL_inv in Hfields as (f1 & f2 & f3 & H1 & H2 & H3 & ->).
  pose proof (pack_L_length _ _ H1) as L1.
  pose proof (pack_L_length _ _ H2) as L2.
  pose proof (pack_L_length _ _ H3) as L3.
  assert (Hhdr : length (b "1LMG" ++ zeros 4 ++ (f1 ++ f2 ++ f3) ++ zeros 0x20)
                 = 52%nat).
  { rewrite !length_app, L1, L2, L3. done. }
  eexists payloads, _, d, table, d'. split_and!; [done..|].
  intros k t m p Ht Hm Hpk. cbn zeta.
  cbn [pointers_position message_count].
  destruct (Hptr _ _ Ht) as [-> ->]. split.
  - apply (field_at out
             ((b "1LMG" ++ zeros 4 ++ (f1 ++ f2 ++ f3) ++ zeros 0x20)
              ++ data_before payloads k) p
             (concat (drop (S k) payloads) ++ zeros zd ++ strings ++ count
              ++ concat entries
              ++ labels_before lib messages (length messages) ++ zeros zl));
      [|rewrite length_app, Hhdr; lia|done].
    rewrite Hout, (concat_split _ _ _ Hpk). by rewrite <- !(assoc_L (++)).
  - apply (field_at out
             ((b "1LMG" ++ zeros 4 ++ (f1 ++ f2 ++ f3) ++ zeros 0x20)
              ++ (concat payloads ++ zeros zd) ++ strings ++ count
              ++ concat entries ++ labels_before lib messages k)
             (str_encode lib (label m) ++ zeros 1)
             (concat (label_bytes lib <$> drop (S k) messages) ++ zeros zl));
      [| |done].
    + rewrite Hout, (labels_before_split _ _ _ _ Hm). unfold label_bytes at 1.
      by rewrite <- !(assoc_L (++)).
    + rewrite length_app, Hhdr, !length_app, Lc, He.
      change (length strings) with 4%nat. unfold HEADER_SIZE. lia.
Qed.

Lemma pointers_locate_bytes_witness :
  ∃ payloads lay d table d',
    Forall2 (λ m p, Sample.encode m = inl p) two_messages payloads
    ∧ read_layout (BytesIO_of two_messages_container) = Some (lay, d)
    ∧ read_pointer_table (message_count lay) (string_position lay) d
      = Some (table, d').
Proof.
  destruct (pointers_locate_bytes Sample.lib two_messages
              two_messages_container eq_refl ltac:(discriminate))
    as (payloads & lay & d & table & d' & H1 & H2 & H3 & _).
  exists payloads, lay, d, table, d'. exact (conj H1 (conj H2 H3)).
Defined.

(** X4: the three length fields in the header of a container built by encode
    account for the whole file: 0x34 + data_length + string_length +
    table_length is the file's length; that length and the data length are
    multiples of 4. *)
Theorem header_accounts_for_file lib messages out :
  encode_container lib messages = Container out →
  ∃ lay d table_length,
    read_layout (BytesIO_of out) = Some (lay, d)
    ∧ unpack_L (take 4 (drop 16 out)) = Some table_length
    ∧ Z.of_nat (length out)
      = 0x34 + data_length lay + string_length lay + table_length
    ∧ Z.of_nat (length out) mod 4 = 0
    ∧ data_length lay mod 4 = 0
    ∧ table_length mod 4 = 0.
Proof.
  intros (payloads & entries & count & fields & zd & zl & _ & He8 & _ & Lc
          & _ & Hmd & _ & Hml & Hfields & Hout & Hlay)%encoded_sections.
  destruct (length_concat_entries _ _ He8) as [_ He].
  apply pack_LLL_inv in Hfields as (f1 & f2 & f3 & H1 & H2 & H3 & ->).
  pose proof (pack_L_length _ _ H1) as L1.
  pose proof (pack_L_length _ _ H2) as L2.
  pose proof (pack_L_length _ _ H3) as L3.
  set (D := concat payloads ++ zeros zd) in *.
  set (L := labels_before lib messages (length messages) ++ zeros zl) in *.
  assert (Hf3 : take 4 (drop 16 out) = f3).
  { apply (field_at out (b "1LMG" ++ zeros 4 ++ f1 ++ f2) f3
             (zeros 0x20 ++ D ++ strings ++ count ++ concat entries ++ L));
      [|by rewrite !length_app, L1, L2|done].
    rewrite Hout. by rewrite <- !(assoc_L (++)). }
  assert (Hlen : Z.of_nat (length out)
                 = 52 + Z.of_nat (length D) + 4
                   + (4 + Z.of_nat (length messages) * 8 + Z.of_nat (length L))).
  { rewrite Hout, !length_app, L1, L2, L3, Lc, He.
    change (length (b "1LMG")) with 4%nat. change (length (zeros 4)) with 4%nat.
    change (length (zeros 0x20)) with 32%nat.
    change (length strings) with 4%nat. lia. }
  eexists _, _, _. split; [exact Hlay|]. cbn [data_length string_length].
  split; [rewrite Hf3; by apply unpack_pack_L|].
  split_and!; [lia| |done|].
  - rewrite Hlen. revert Hmd Hml. generalize (Z.of_nat (length D)),
      (Z.of_nat (length L)), (Z.of_nat (length messages)). intros a c n ??.
    Z.div_mod_to_equations. lia.
  - revert Hml. generalize (Z.of_nat (length L)), (Z.of_nat (length messages)).
    intros c n ?. Z.div_mod_to_equations. lia.
Qed.

Lemma header_accounts_for_file_witness :
  ∃ lay d table_length,
    read_layout (BytesIO_of two_messages_container) = Some (lay, d)
    ∧ unpack_L (take 4 (drop 16 two_messages_container)) = Some table_length
    ∧ Z.of_nat (length two_messages_container)
      = 0x34 + data_length lay + string_length lay + table_length.
Proof.
  destruct (header_accounts_for_file Sample.lib two_messages
              two_messages_container eq_refl)
    as (lay & d & tl & H1 & H2 & H3 & _).
  exists lay, d, tl. exact (conj H1 (conj H2 H3)).
Defined.

(** ** What a call leaves behind *)

Lemma decode_container_effects lib loadpath savepath container w :
  let r := decode_container lib loadpath savepath container w in
  decompress_calls r.2 = decompress_calls w
  ∧ match r.1 with
    | Returned rc =>
        (rc = 0 ∨ rc = 1 ∨ rc = -2)
        ∧ (rc < 0 → files r.2 = files w ∧ stdout r.2 = stdout w
                    ∧ stderr r.2 = stderr w ++ [empty_message loadpath])
        ∧ (0 ≤ rc →
           stderr r.2 = stderr w
           ∧ match savepath with
             | Some path =>
                 stdout r.2 = stdout w
                 ∧ ∃ content, files r.2 = <[path := content]> (files w)
             | None =>
                 files r.2 = files w
                 ∧ ∃ text, stdout r.2 = stdout w ++ [text]
             end)
    | Raised => r.2 = w
    end.
Proof.
  cbn zeta. split; [apply decode_container_calls|].
  unfold decode_container.
  destruct (read_layout _) as [[lay d]|]; [|done].
  case_decide.
  { cbn. split_and!; [auto|done|lia]. }
  destruct (decode_messages _ _ _) as [messages|]; [|done].
  case_decide; cbn; (split_and!; [auto|lia|]); intros _;
    (split; [by destruct savepath|]); destruct savepath; cbn; eauto.
Qed.

(** X5: whatever the file, [decode_1LMG] ends in one of three ways.  It
    returns 0 or 1 after writing the save path (or printing, without one)
    and nothing else, stderr included; or it returns -1, -2 or -3 after one
    line on stderr, with every file and stdout as before; or it raises,
    with files, stdout and stderr as before. *)
Theorem decode_effects lib loadpath savepath compress w :
  let r := decode_1LMG lib loadpath savepath compress w in
  match r.1 with
  | Returned rc =>
      (rc = 0 ∨ rc = 1 ∨ rc = -1 ∨ rc = -2 ∨ rc = -3)
      ∧ (rc < 0 → files r.2 = files w ∧ stdout r.2 = stdout w
                  ∧ ∃ line, stderr r.2 = stderr w ++ [line])
      ∧ (0 ≤ rc →
         stderr r.2 = stderr w
         ∧ match savepath with
           | Some path =>
               stdout r.2 = stdout w
               ∧ ∃ content, files r.2 = <[path := content]> (files w)
           | None =>
               files r.2 = files w ∧ ∃ text, stdout r.2 = stdout w ++ [text]
           end)
  | Raised =>
      files r.2 = files w ∧ stdout r.2 = stdout w ∧ stderr r.2 = stderr w
  end.
Proof.
  cbn zeta. unfold decode_1LMG.
  destruct (files w !! loadpath) as [data|]; [|done].
  destruct (open_1LMG lib loadpath data compress w) as [[container|rc] w0]
    eqn:Hopen.
  - apply open_1LMG_inl in Hopen as (Hf & He & Ho).
    pose proof (decode_container_effects lib loadpath savepath container w0)
      as [_ H]. cbn zeta in H.
    destruct (decode_container lib loadpath savepath container w0) as [[rc|] w1];
      cbn in *.
    + destruct H as (Hrc & Hneg & Hpos). rewrite <- Hf, <- He, <- Ho.
      split_and!; [intuition|intros ?; destruct Hneg as (? & ? & ?); eauto|done].
    + by subst w1.
  - unfold open_1LMG in Hopen.
    repeat case_decide; repeat case_match; simplify_eq/=;
      (split_and!; [auto 6|eauto|lia]).
Qed.

Lemma save_effects lib savepath compress out w :
  let r := save lib savepath compress out w in
  stdout r.2 = stdout w ∧ stderr r.2 = stderr w
  ∧ match r.1 with
    | Returned rc =>
        rc = 0 ∧ ∃ content, files r.2 = <[savepath := content]> (files w)
    | Raised =>
        compressing savepath compress
        ∧ files r.2 = <[savepath := []]> (files w)
    end.
Proof.
  cbn zeta. unfold save. case_decide; [|cbn; eauto].
  destruct (lz11_compress lib out); cbn; eauto.
Qed.

(** X6: [encode_1LMG] returns 0 after writing the save path and nothing
    else; or it returns -1 or -3 after one line on stderr, with every file as
    before; or it raises, and then the files are as before, except that the
    save path holds an empty file when it is the compressor that raised (the
    file is opened before the container is compressed).  It never prints. *)
Theorem encode_effects lib loadpath savepath compress w :
  let r := encode_1LMG lib loadpath savepath compress w in
  stdout r.2 = stdout w
  ∧ match r.1 with
    | Returned rc =>
        (rc = 0 ∨ rc = -1 ∨ rc = -3)
        ∧ (rc < 0 → files r.2 = files w
                    ∧ ∃ line, stderr r.2 = stderr w ++ [line])
        ∧ (rc = 0 →
           stderr r.2 = stderr w
           ∧ ∃ content, files r.2 = <[savepath := content]> (files w))
    | Raised =>
        stderr r.2 = stderr w
        ∧ (files r.2 = files w
           ∨ (compressing savepath compress
              ∧ files r.2 = <[savepath := []]> (files w)))
    end.
Proof.
  cbn zeta. unfold encode_1LMG, encode_messages.
  destruct (files w !! loadpath ≫= read_text lib) as [text|]; [|cbn; by auto].
  destruct (parse_text text) as [[[]|messages]|]; [| |cbn; by auto].
  { cbn. split_and!; [done|auto|eauto|lia]. }
  destruct (encode_container lib messages) as [out|e|]; [| |cbn; by auto].
  - pose proof (save_effects lib savepath compress out w) as (Ho & He & H).
    cbn zeta in *.
    destruct (save lib savepath compress out w) as [[rc|] w1]; cbn in *.
    + destruct H as [-> Hfile]. split_and!; [done|auto|lia|done].
    + split_and!; [done|done|auto].
  - cbn. split_and!; [done|auto|eauto|lia].
Qed.

(** ** Files that end too early *)

Lemma unpack_L_length bs v : unpack_L bs = Some v → length bs = 4%nat.
Proof. by destruct bs as [|? [|? [|? [|? [|? ?]]]]]. Qed.

Lemma read_layout_bound data lay d :
  read_layout (BytesIO_of data) = Some (lay, d) →
  (16 ≤ length data)%nat
  ∧ (Z.to_nat (pointers_position lay) + 4 ≤ length data)%nat.
Proof.
  intros (_ & _ & _ & _ & _ & _ & H12 & Hpp)%read_layout_Some.
  apply unpack_L_length in H12, Hpp.
  rewrite length_take, length_drop in H12, Hpp. lia.
Qed.

Lemma read_pointer_table_bound count sp data messages data' :
  read_pointer_table count sp data = Some (messages, data') →
  1 ≤ count →
  (pos data + 8 * Z.to_nat count ≤ length (buf data))%nat.
Proof.
  intros Hrun Hcount.
  destruct (read_pointer_table_spec _ _ _ _ _ Hrun Hcount)
    as (Hlen & _ & _ & Ht).
  destruct (lookup_lt_is_Some_2 messages (Z.to_nat count - 1)) as [m Hm];
    [lia|].
  apply Ht in Hm. unfold table_entry in Hm.
  apply unpack_LL_length in Hm. rewrite length_take, length_drop in Hm. lia.
Qed.

(** A file of four bytes: the magic and nothing else. *)
Example magic_only_raises :
  decode_1LMG Sample.lib "short" None 2 (disk [("short", b "1LMG")])
  = (Raised, disk [("short", b "1LMG")]).
Proof. reflexivity. Qed.

(** X7: a file that starts with the magic but ends too early is not answered
    with an error code: [decode_1LMG] raises, and leaves the world as it
    was, when the file is shorter than the 16 bytes of header it reads,
    when it ends before the message count at 0x34 + data_length +
    string_length, and when it ends inside the pointer table. *)
Theorem truncated_file_raises lib loadpath savepath compress w data :
  files w !! loadpath = Some data →
  slice_to 4 data = MAGIC →
  let r := decode_1LMG lib loadpath savepath compress w in
  ((length data < 16)%nat → r = (Raised, w))
  ∧ (∀ dl sl,
       unpack_L (take 4 (drop 8 data)) = Some dl →
       unpack_L (take 4 (drop 12 data)) = Some sl →
       Z.of_nat (length data) < 0x34 + dl + sl + 4 →
       r = (Raised, w))
  ∧ (∀ lay d,
       read_layout (BytesIO_of data) = Some (lay, d) →
       1 ≤ message_count lay →
       Z.of_nat (length data)
       < pointers_position lay + 4 + 8 * message_count lay →
       r = (Raised, w)).
Proof.
  intros Hfile Hmagic r. subst r.
  rewrite (decode_plain _ _ _ _ _ data) by done.
  unfold decode_container. split_and!.
  - intros Hshort. destruct (read_layout _) as [[lay d]|] eqn:Hlay; [|done].
    apply read_layout_bound in Hlay. lia.
  - intros dl sl H8 H12 Hshort.
    destruct (read_layout _) as [[lay d]|] eqn:Hlay; [|done].
    pose proof (read_layout_bound _ _ _ Hlay) as [_ Hb].
    apply read_layout_Some in Hlay
      as (_ & _ & Hsp & Hpp & _ & H8' & H12' & _).
    rewrite H8 in H8'. rewrite H12 in H12'. simplify_eq.
    rewrite Hpp, Hsp in Hb. unfold HEADER_SIZE in Hb. lia.
  - intros lay d Hlay Hcount Hshort. rewrite Hlay.
    rewrite decide_False by lia.
    destruct (decode_messages lib lay d) as [messages|] eqn:Hdec; [|done].
    unfold decode_messages, loaded_messages in Hdec.
    destruct (read_pointer_table _ _ _) as [[table d1]|] eqn:Hrun; [|done].
    apply read_pointer_table_bound in Hrun; [|done].
    apply read_layout_Some in Hlay as (Hbuf & Hpos & _).
    rewrite Hbuf, Hpos in Hrun. lia.
Qed.

Lemma truncated_file_raises_witness :
  decode_1LMG Sample.lib "short" None 2 (disk [("short", b "1LMG")])
  = (Raised, disk [("short", b "1LMG")]).
Proof.
  refine (proj1 (truncated_file_raises Sample.lib "short" None 2
    (disk [("short", b "1LMG")]) (b "1LMG") eq_refl eq_refl) _).
  cbn. lia.
Defined.

(** ** The two programs, one after the other *)

(** X8: a file that [encode_1LMG] has written without compression is taken
    by [decode_1LMG] as it is, whatever the compress setting: the
    decompressor is not called, and the call returns 0, returns -2 (no
    message) or raises (inside the message library), never -1, -3 or 1. *)
Theorem plain_output_decodes lib loadpath savepath compress w w' :
  encode_1LMG lib loadpath savepath compress w = (Returned 0, w') →
  ¬ compressing savepath compress →
  ∀ savepath' compress',
    let r := decode_1LMG lib savepath savepath' compress' w' in
    decompress_calls r.2 = decompress_calls w'
    ∧ (r.1 = Returned 0 ∨ r.1 = Returned (-2) ∨ r.1 = Raised).
Proof.
  intros (messages & out & Hout & Hfile)%encode_1LMG_success Hplain.
  rewrite decide_False in Hfile by done.
  apply encoded_read_layout in Hout
    as (dl & d & _ & Hlay & _ & _ & _ & _ & Hmagic).
  intros savepath' compress'. cbn zeta.
  rewrite (decode_plain _ _ _ _ _ out) by done.
  split; [apply decode_container_calls|].
  unfold decode_container. rewrite Hlay. cbn [message_count string_length].
  case_decide; [auto|].
  destruct (decode_messages _ _ _); [|auto].
  rewrite decide_True by done. auto.
Qed.

Lemma plain_output_decodes_witness :
  decompress_calls
    (decode_1LMG Sample.lib "back.1lmg" None 1 mystery_encoded.2).2
  = decompress_calls mystery_encoded.2.
Proof.
  refine (proj1 (plain_output_decodes Sample.lib "m.txt" "back.1lmg" 1
    mystery_decoded.2 mystery_encoded.2 eq_refl _ None 1)).
  intros [[_ H]|H]; discriminate H.
Defined.

(** ** How many messages *)

Lemma byte_val_range x : 0 ≤ byte_val x < 256.
Proof. unfold byte_val. pose proof (Byte.to_N_bounded x). lia. Qed.

Lemma unpack_L_range bs v : unpack_L bs = Some v → 0 ≤ v < 2 ^ 32.
Proof.
  destruct bs as [|b0 [|b1 [|b2 [|b3 [|? ?]]]]]; try done.
  intros [= <-].
  pose proof (byte_val_range b0). pose proof (byte_val_range b1).
  pose proof (byte_val_range b2). pose proof (byte_val_range b3).
  change (2 ^ 8) with 256. change (2 ^ 16) with 65536.
  change (2 ^ 24) with 16777216. change (2 ^ 32) with 4294967296. lia.
Qed.

Lemma load_messages_length lib labels_position messages : ∀ data loaded data',
  load_messages lib labels_position messages data = Some (loaded, data') →
  length loaded = length messages.
Proof.
  induction messages as [|m messages IH]; intros data loaded data' Hrun.
  { by simplify_eq/=. }
  cbn [load_messages] in Hrun.
  apply bind_Some in Hrun as ([m1 d1] & _ & Hrun).
  apply bind_Some in Hrun as ([m2 d2] & _ & Hrun).
  apply bind_Some in Hrun as ([rest d3] & Hrest & Hrun).
  simplify_eq/=. f_equal. by eapply IH.
Qed.

Lemma strip_pad_length lib string_length messages stripped :
  strip_pad lib string_length messages = Some stripped →
  length stripped = length messages.
Proof.
  unfold strip_pad. intros H. case_decide; [|by simplify_eq].
  destruct (last messages); [|done]. cbn in H.
  case_decide; simplify_eq; [by rewrite length_insert|done].
Qed.

(** X9: the fields [decode_1LMG] reads from the header are never negative,
    and when it gets to emit messages it emits as many as the message count
    read from the file says, the trailing-pad cleanup included. *)
Theorem decoded_message_count lib data lay d messages :
  read_layout (BytesIO_of data) = Some (lay, d) →
  message_count lay ≠ 0 →
  decode_messages lib lay d = Some messages →
  0 ≤ data_length lay ∧ 0 ≤ string_length lay
  ∧ 0x34 ≤ string_position lay ≤ pointers_position lay
  ∧ 1 ≤ message_count lay
  ∧ length messages = Z.to_nat (message_count lay).
Proof.
  intros Hlay Hne Hdec.
  apply read_layout_Some in Hlay as (_ & _ & Hsp & Hpp & _ & H8 & H12 & Hmc).
  apply unpack_L_range in H8, H12, Hmc.
  assert (Hcount : 1 ≤ message_count lay) by lia.
  split_and!; [lia| lia|unfold HEADER_SIZE in Hsp; lia|lia|done|].
  unfold decode_messages, loaded_messages in Hdec.
  apply bind_Some in Hdec as (loaded & Hload & Hstrip).
  apply bind_Some in Hload as ([table d1] & Htable & Hload).
  apply bind_Some in Hload as ([loaded' d2] & Hload & ?). simplify_eq.
  apply strip_pad_length in Hstrip. apply load_messages_length in Hload.
  apply read_pointer_table_spec in Htable as (Hlen & _); [|done].
  congruence.
Qed.

Lemma decoded_message_count_witness :
  length [hello_message "hello[STOP]"] = Z.to_nat 1.
Proof.
  refine (proj2 (proj2 (proj2 (proj2 (decoded_message_count Sample.lib
    hello_container
    {| mystery := 0; data_length := 14; string_length := 4;
       string_position := 0x34 + 14; pointers_position := 0x34 + 14 + 4;
       message_count := 1 |}
    {| buf := hello_container; pos := 0x34 + 14 + 4 + 4 |}
    [hello_message "hello[STOP]"] _ _ _))))).
  - reflexivity.
  - cbn. lia.
  - by vm_compute.
Defined.

(** X10: when [encode_1LMG] succeeds without compression, the message count
    in the header of the file it wrote is half the number of pieces between
    the [===] lines of the text. *)
Theorem written_message_count lib loadpath savepath compress w w' raw text :
  files w !! loadpath = Some raw →
  read_text lib raw = Some text →
  encode_1LMG lib loadpath savepath compress w = (Returned 0, w') →
  ¬ compressing savepath compress →
  ∃ out lay d,
    files w' !! savepath = Some out
    ∧ read_layout (BytesIO_of out) = Some (lay, d)
    ∧ 2 * message_count lay = Z.of_nat (length (pieces text)).
Proof.
  intros Hfile Htext Hrun Hplain.
  unfold encode_1LMG, encode_messages, save in Hrun.
  rewrite Hfile in Hrun. cbn [mbind option_bind] in Hrun.
  rewrite Htext in Hrun.
  destruct (decide (Z.of_nat (length (pieces text)) mod 2 = 0)) as [Heven|Hodd].
  - destruct (parse_text_even text Heven) as (messages & Hparse & Hlen & _).
    rewrite Hparse in Hrun.
    destruct (encode_container lib messages) as [out|e|] eqn:Hout; [|done..].
    rewrite decide_False in Hrun by done. simplify_eq/=.
    apply encoded_read_layout in Hout as (dl & d & _ & Hlay & _).
    eexists out, _, d. split_and!; [by rewrite lookup_insert_eq|exact Hlay|].
    cbn [message_count]. lia.
  - by rewrite parse_text_odd in Hrun.
Qed.

Lemma written_message_count_witness :
  ∃ out lay d,
    files (encode_1LMG Sample.lib "two.txt" "two.1lmg" 1 two_blocks_disk).2
      !! "two.1lmg" = Some out
    ∧ read_layout (BytesIO_of out) = Some (lay, d)
    ∧ 2 * message_count lay = Z.of_nat (length (pieces two_blocks_text)).
Proof.
  refine (written_message_count Sample.lib "two.txt" "two.1lmg" 1
    two_blocks_disk _ (b two_blocks_text) two_blocks_text _ _ _ _).
  - reflexivity.
  - reflexivity.
  - reflexivity.
  - intros [[_ H]|H]; discriminate H.
Defined.

(** ** The text between the separators *)

Lemma prefix_app sep s :
  String.prefix sep s = true ↔ ∃ t, s = sep +:+ t.
Proof.
  revert s. induction sep as [|c sep IH]; intros s.
  { split; [intros _; exists s; reflexivity|by destruct s]. }
  destruct s as [|x s]; cbn [String.prefix].
  { split; [done|]. intros [t Ht]. discriminate Ht. }
  destruct (ascii_dec c x) as [->|Hne].
  - rewrite IH. split; intros [t Ht]; exists t.
    + change (String x sep +:+ t) with (String x (sep +:+ t)). by rewrite Ht.
    + change (String x sep +:+ t) with (String x (sep +:+ t)) in Ht.
      by injection Ht.
  - split; [done|]. intros [t Ht].
    change (String c sep +:+ t) with (String c (sep +:+ t)) in Ht.
    injection Ht as ??. congruence.
Qed.

Lemma contains_spec sep s :
  contains sep s = true ↔ ∃ a t, s = a +:+ sep +:+ t.
Proof.
  induction s as [|x s IH]; cbn [contains].
  - rewrite orb_false_r, prefix_app. split.
    + intros [t Ht]. exists "", t. exact Ht.
    + intros (a & t & Ht). destruct a; [exists t; exact Ht|discriminate Ht].
  - rewrite orb_true_iff, prefix_app, IH. split.
    + intros [[t Ht]|(a & t & Ht)]; [exists "", t; exact Ht|].
      exists (String x a), t.
      change (String x a +:+ sep +:+ t) with (String x (a +:+ sep +:+ t)).
      by rewrite Ht.
    + intros (a & t & Ht). destruct a as [|y a]; [left; exists t; exact Ht|].
      change (String y a +:+ sep +:+ t) with (String y (a +:+ sep +:+ t)) in Ht.
      injection Ht as ??. right. by exists a, t.
Qed.

Lemma split_go_skip sep x : ∀ cur s,
  split_go sep (String.length x) cur (x +:+ s) = split_go sep 0 cur s.
Proof.
  induction x as [|c x IH]; intros cur s; [done|].
  change (String c x +:+ s) with (String c (x +:+ s)). cbn [String.length].
  destruct s as [|y s].
  - cbn [split_go]. rewrite IH. done.
  - cbn [split_go]. by rewrite IH.
Qed.

Lemma rev_app_append cur : ∀ acc t,
  String.rev_app cur acc +:+ t = String.rev_app cur (acc +:+ t).
Proof.
  induction cur as [|c cur IH]; intros acc t; [done|].
  cbn [String.rev_app]. by rewrite IH.
Qed.

Lemma rev_cons_append c cur s :
  String.rev (String c cur) +:+ s = String.rev cur +:+ String c s.
Proof. unfold String.rev. cbn [String.rev_app]. by rewrite !rev_app_append. Qed.

Lemma append_empty_r s : s +:+ "" = s.
Proof.
  induction s as [|c s IH]; [done|].
  change (String c s +:+ "") with (String c (s +:+ "")). by rewrite IH.
Qed.

Lemma append_assoc s1 s2 s3 : (s1 +:+ s2) +:+ s3 = s1 +:+ s2 +:+ s3.
Proof.
  induction s1 as [|c s1 IH]; [done|].
  change (String c s1 +:+ s2) with (String c (s1 +:+ s2)).
  change (String c (s1 +:+ s2) +:+ s3) with (String c ((s1 +:+ s2) +:+ s3)).
  by rewrite IH.
Qed.

Lemma length_append s1 s2 :
  String.length (s1 +:+ s2) = (String.length s1 + String.length s2)%nat.
Proof.
  induction s1 as [|c s1 IH]; [done|].
  change (String c s1 +:+ s2) with (String c (s1 +:+ s2)).
  cbn [String.length]. by rewrite IH.
Qed.

Lemma join_cons sep x l :
  l ≠ [] → join sep (x :: l) = x +:+ sep +:+ join sep l.
Proof. by destruct l. Qed.

Lemma split_go_nonempty sep skip cur s : split_go sep skip cur s ≠ [].
Proof.
  destruct (split_go_head sep s skip cur) as [x Hx]. by intros E; rewrite E in Hx.
Qed.

Lemma join_split_go sep n : ∀ s cur,
  (String.length s ≤ n)%nat → sep ≠ "" →
  join sep (split_go sep 0 cur s) = String.rev cur +:+ s.
Proof.
  induction n as [|n IH]; intros s cur Hlen Hsep.
  { destruct s; [|cbn in Hlen; lia]. cbn. by rewrite append_empty_r. }
  destruct s as [|c s]; [cbn; by rewrite append_empty_r|].
  cbn [split_go]. cbn [String.length] in Hlen.
  destruct (String.prefix sep (String c s)) eqn:Hpre.
  - apply prefix_app in Hpre as [t Ht].
    destruct sep as [|c' sep']; [done|].
    change (String c' sep' +:+ t) with (String c' (sep' +:+ t)) in Ht.
    injection Ht as <- ->.
    replace (String.length (String c sep') - 1)%nat with (String.length sep')
      by (cbn [String.length]; lia).
    rewrite split_go_skip.
    rewrite join_cons by apply split_go_nonempty.
    rewrite IH; [|rewrite length_append in Hlen; lia|done].
    change (String.rev "") with "". cbn [String.append].
    change (String c sep' +:+ t) with (String c (sep' +:+ t)). done.
  - rewrite IH by (done || lia). apply rev_cons_append.
Qed.

(** X11: line 31 of encode.py loses nothing but the separators: the text is
    what [split] returns, joined again with the separator; the first piece,
    which [encode_1LMG] drops, is whatever stands before the first [===]
    line. *)
Theorem split_loses_nothing text :
  ∃ first,
    split ("===" +:+ nl) text = first :: pieces text
    ∧ join ("===" +:+ nl) (first :: pieces text) = text.
Proof.
  unfold pieces.
  destruct (split ("===" +:+ nl) text) as [|first rest] eqn:Hsplit.
  { by apply split_go_nonempty in Hsplit. }
  assert (Htail : slice_from 1 (first :: rest) = rest).
  { unfold slice_from.
    assert (slice_index (length (first :: rest)) 1 = 1%nat) as ->; [|done].
    unfold slice_index. cbn [Z.ltb Z.compare length]. lia. }
  rewrite Htail. exists first. split; [done|].
  rewrite <- Hsplit. unfold split.
  rewrite (join_split_go _ (String.length text)); [done|lia|done].
Qed.

Lemma split_go_absent sep s : ∀ cur,
  contains sep s = false →
  split_go sep 0 cur s = [String.rev cur +:+ s].
Proof.
  induction s as [|c s IH]; intros cur Habs.
  { cbn. by rewrite append_empty_r. }
  cbn [contains] in Habs. apply orb_false_iff in Habs as [Hpre Hrest].
  cbn [split_go]. rewrite Hpre, IH by done. by rewrite rev_cons_append.
Qed.

Lemma pieces_absent text :
  contains ("===" +:+ nl) text = false → pieces text = [].
Proof.
  intros Habs. unfold pieces, split. by rewrite split_go_absent.
Qed.

Lemma parse_text_no_pieces text :
  pieces text = [] → parse_text text = Some (inr []).
Proof. intros H. unfold parse_text. by rewrite H. Qed.

Lemma encode_container_nil lib :
  encode_container lib [] = Container empty_container.
Proof. reflexivity. Qed.

(** X12: a text in which no [===] line occurs, the empty text included, is
    not refused: [encode_1LMG] finds no message in it, returns 0 and writes
    the 64-byte container without messages, whatever the text says; and
    [decode_1LMG] answers that file with -2. *)
Theorem text_without_separator lib loadpath savepath compress w raw text :
  files w !! loadpath = Some raw →
  read_text lib raw = Some text →
  contains ("===" +:+ nl) text = false →
  ¬ compressing savepath compress →
  encode_1LMG lib loadpath savepath compress w
  = (Returned 0, write_file savepath empty_container w)
  ∧ length empty_container = 64%nat
  ∧ ∀ savepath' compress',
      (decode_1LMG lib savepath savepath' compress'
         (write_file savepath empty_container w)).1 = Returned (-2).
Proof.
  intros Hfile Htext Habs Hplain. split_and!; [|done|].
  - unfold encode_1LMG. rewrite Hfile. cbn [mbind option_bind].
    rewrite Htext, (parse_text_no_pieces _ (pieces_absent _ Habs)).
    unfold encode_messages, save. rewrite encode_container_nil.
    by rewrite decide_False.
  - intros savepath' compress'.
    rewrite (decode_plain _ _ _ _ _ empty_container);
      [done|cbn [files write_file]; by rewrite lookup_insert_eq|done].
Qed.

Lemma text_without_separator_witness :
  encode_1LMG Sample.lib "note.txt" "note.1lmg" 1
    (disk [("note.txt", b "just a note")])
  = (Returned 0,
     write_file "note.1lmg" empty_container
       (disk [("note.txt", b "just a note")])).
Proof.
  refine (proj1 (text_without_separator Sample.lib "note.txt" "note.1lmg" 1
    (disk [("note.txt", b "just a note")]) (b "just a note") "just a note"
    _ _ _ _)).
  - reflexivity.
  - reflexivity.
  - reflexivity.
  - intros [[_ H]|H]; discriminate H.
Defined.

(** ** The last line of a piece *)

Lemma rfind_from_absent c l : ∀ i, c ∉ l → rfind_from c i l = -1.
Proof.
  induction l as [|x l IH]; intros i Habs; [done|].
  apply not_elem_of_cons in Habs as [Hne Habs].
  cbn [rfind_from]. rewrite IH by done. cbn.
  destruct (Ascii.eqb_spec x c); [congruence|done].
Qed.

Lemma rfind_from_last c a : ∀ i l,
  0 ≤ i → c ∉ l →
  rfind_from c i (a ++ c :: l) = i + Z.of_nat (length a).
Proof.
  induction a as [|x a IH]; intros i l Hi Habs.
  - cbn [app rfind_from length]. rewrite rfind_from_absent by done. cbn.
    rewrite Ascii.eqb_refl. lia.
  - cbn [app rfind_from length]. rewrite IH by (done || lia).
    destruct (Z.leb_spec 0 (i + 1 + Z.of_nat (length a))); lia.
Qed.

Lemma contains_char c s :
  contains (String c "") s = false ↔ c ∉ chars s.
Proof.
  induction s as [|x s IH]; cbn [contains chars list_ascii_of_string].
  { split; [intros _; apply not_elem_of_nil|done]. }
  fold (chars s). rewrite orb_false_iff, IH, not_elem_of_cons.
  cbn [String.prefix]. destruct (ascii_dec c x) as [->|Hne].
  - split; [|by intros []]. intros [Hp _]. by destruct s.
  - split; [by intros []|by intros []].
Qed.

(** A label line that has lost its newline. *)
Example cut_last_line_eats_a_character :
  cut_last_line "intro Position: 52" = "intro Position: 5".
Proof. reflexivity. Qed.

(** X13: line 36 of encode.py cuts a piece at its last newline: what
    stands after it, the rest of the [====] line, goes, and so does the
    newline.  A piece without any newline loses its last character instead
    ([rfind] answers -1, and the slice ends one character early); the empty
    piece stays empty. *)
Theorem cut_last_line_cases a rest c :
  contains nl rest = false →
  cut_last_line (a +:+ nl +:+ rest) = a
  ∧ cut_last_line (rest +:+ String c "") = rest
  ∧ cut_last_line "" = "".
Proof.
  intros Habs. apply contains_char in Habs. split_and!; [| |done].
  - unfold cut_last_line, rfind, str_to, slice_to.
    rewrite !chars_app. change (chars nl) with [ascii_of_nat 10].
    cbn [app]. rewrite rfind_from_last by done.
    assert (slice_index (length (chars a ++ ascii_of_nat 10 :: chars rest))
              (0 + Z.of_nat (length (chars a))) = length (chars a)) as ->.
    { unfold slice_index. rewrite length_app. cbn [length].
      destruct (Z.ltb_spec (0 + Z.of_nat (length (chars a))) 0); lia. }
    by rewrite take_app_length, str_chars.
  - destruct (decide (c = ascii_of_nat 10)) as [->|Hne].
    + unfold cut_last_line, rfind, str_to, slice_to.
      rewrite !chars_app. change (chars (String (ascii_of_nat 10) ""))
        with [ascii_of_nat 10].
      rewrite rfind_from_last by (done || apply not_elem_of_nil).
      assert (slice_index (length (chars rest ++ [ascii_of_nat 10]))
                (0 + Z.of_nat (length (chars rest))) = length (chars rest))
        as ->.
      { unfold slice_index. rewrite length_app. cbn [length].
        destruct (Z.ltb_spec (0 + Z.of_nat (length (chars rest))) 0); lia. }
      by rewrite take_app_length, str_chars.
    + unfold cut_last_line, rfind, str_to, slice_to.
      rewrite !chars_app. change (chars (String c "")) with [c].
      rewrite rfind_from_absent.
      * assert (slice_index (length (chars rest ++ [c])) (-1)
                = length (chars rest)) as ->.
        { unfold slice_index. rewrite length_app. cbn [length Z.ltb Z.compare].
          lia. }
        by rewrite take_app_length, str_chars.
      * rewrite not_elem_of_app, not_elem_of_cons. split_and!; [done|congruence|].
        apply not_elem_of_nil.
Qed.

Lemma cut_last_line_cases_witness :
  cut_last_line ("intro Position: 52" +:+ nl +:+ "==") = "intro Position: 52"
  ∧ cut_last_line ("intro" +:+ "!") = "intro".
Proof.
  destruct (cut_last_line_cases "intro Position: 52" "==" "!" eq_refl)
    as (H1 & _).
  destruct (cut_last_line_cases "" "intro" "!" eq_refl) as (_ & H2 & _).
  exact (conj H1 H2).
Defined.

(** ** The console loops *)

Lemma print_progress_frame os iteration total w w' :
  print_progress os iteration total w = Some w' →
  files w' = files w ∧ stderr w' = stderr w.
Proof.
  unfold print_progress. case_match; [done|]. intros [= <-].
  by case_match.
Qed.

(** One call of the decode loop: the file written, if any, is the save
    path, and the line on stderr, if any, is one of three. *)
Lemma decode_default_step lib loadpath savepath w :
  let r := decode_1LMG lib loadpath (Some savepath) 2 w in
  (files r.2 = files w ∨ ∃ content, files r.2 = <[savepath := content]> (files w))
  ∧ (stderr r.2 = stderr w
     ∨ ∃ line, stderr r.2 = stderr w ++ [line]
               ∧ (line = format_message loadpath
                  ∨ line = decompression_message loadpath
                  ∨ line = empty_message loadpath)).
Proof.
  cbn zeta. unfold decode_1LMG.
  destruct (files w !! loadpath) as [data|]; [|by auto].
  destruct (open_1LMG lib loadpath data 2 w) as [[container|rc] w0] eqn:Hopen.
  - apply open_1LMG_inl in Hopen as (Hf & He & _).
    pose proof (decode_container_effects lib loadpath (Some savepath)
                  container w0) as [_ H]. cbn zeta in H.
    destruct (decode_container lib loadpath (Some savepath) container w0)
      as [[rc|] w1]; cbn in *.
    + destruct H as (_ & Hneg & Hpos). rewrite <- Hf, <- He.
      destruct (Z.lt_ge_cases rc 0) as [Hrc|Hrc].
      * destruct (Hneg Hrc) as (-> & _ & ->). eauto 8.
      * destruct (Hpos ltac:(lia)) as (-> & _ & content & ->). eauto.
    + subst w1. rewrite Hf, He. auto.
  - unfold open_1LMG in Hopen. cbn [Z.ltb Z.compare] in Hopen.
    repeat case_decide; repeat case_match; simplify_eq/=; eauto 8.
Qed.

Lemma decode_loop_spec lib os args total inputs : ∀ i count w,
  let r := decode_loop lib os args total i inputs count w in
  (∀ c, r.1 = Some c → count ≤ c ≤ count + Z.of_nat (length inputs))
  ∧ (∀ path, files r.2 !! path ≠ files w !! path →
             ∃ name, path = name +:+ ".txt")
  ∧ (∀ line, line ∈ stderr r.2 →
       line ∈ stderr w
       ∨ ∃ p, line = format_message p ∨ line = decompression_message p
              ∨ line = empty_message p).
Proof.
  induction inputs as [|input rest IH]; intros i count w; cbn zeta.
  { cbn. split_and!; [intros c [= <-]; lia|done|auto]. }
  cbn [decode_loop].
  destruct (if silent args then Some w else print_progress os (1 + i) total w)
    as [w1|] eqn:Hprogress; [|cbn; split_and!; [done|done|auto]].
  assert (Hw1 : files w1 = files w ∧ stderr w1 = stderr w).
  { destruct (silent args); [by simplify_eq|].
    by eapply print_progress_frame. }
  destruct Hw1 as [Hf1 He1]. clear Hprogress.
  set (savepath := decode_savepath os args input) in *.
  destruct (folder args && negb (mkdir_parent os savepath));
    [cbn; rewrite Hf1, He1; split_and!; [done|done|auto]|].
  pose proof (decode_default_step lib input.1 (savepath +:+ ".txt") w1)
    as [Hfiles Herr]. cbn zeta in Hfiles, Herr.
  destruct (decode_1LMG lib input.1 (Some (savepath +:+ ".txt")) 2 w1)
    as [[rc|] w2]; cbn [fst snd] in *.
  - specialize (IH (i + 1)
                  (if 0 <=? rc then count + 1 else count) w2).
    cbn zeta in IH. destruct IH as (IHc & IHf & IHe).
    split_and!.
    + intros c Hc. apply IHc in Hc. cbn [length].
      destruct (0 <=? rc); lia.
    + intros path Hpath.
      destruct (decide (files (decode_loop lib os args total (i + 1) rest
                                 (if 0 <=? rc then count + 1 else count) w2).2
                        !! path = files w2 !! path)) as [Heq|Hne];
        [|by apply IHf].
      rewrite Heq, <- Hf1 in Hpath.
      destruct Hfiles as [Hsame|[content Hins]]; [by rewrite Hsame in Hpath|].
      rewrite Hins in Hpath.
      destruct (decide (path = savepath +:+ ".txt")) as [->|Hother]; [eauto|].
      by rewrite lookup_insert_ne in Hpath.
    + intros line [Hin|Hnew]%IHe; [|auto].
      rewrite <- He1.
      destruct Herr as [Hsame|(new & Hadd & Hkind)]; [rewrite <- Hsame; auto|].
      rewrite Hadd in Hin. apply elem_of_app in Hin as [Hin|Hin]; [auto|].
      apply list_elem_of_singleton in Hin as ->. eauto.
  - split_and!; [done| |].
    + intros path Hpath. rewrite <- Hf1 in Hpath.
      destruct Hfiles as [Hsame|[content Hins]]; [by rewrite Hsame in Hpath|].
      rewrite Hins in Hpath.
      destruct (decide (path = savepath +:+ ".txt")) as [->|Hother]; [eauto|].
      by rewrite lookup_insert_ne in Hpath.
    + intros line Hin. rewrite <- He1.
      destruct Herr as [Hsame|(new & Hadd & Hkind)]; [rewrite <- Hsame; auto|].
      rewrite Hadd in Hin. apply elem_of_app in Hin as [Hin|Hin]; [auto|].
      apply list_elem_of_singleton in Hin as ->. eauto.
Qed.

Lemma decode_loop_compress lib os args compress total inputs : ∀ i count w,
  decode_loop lib os (with_compress compress args) total i inputs count w
  = decode_loop lib os args total i inputs count w.
Proof.
  induction inputs as [|input rest IH]; intros i count w; [done|].
  cbn [decode_loop silent folder with_compress].
  change (decode_savepath os (with_compress compress args) input)
    with (decode_savepath os args input).
  destruct (if silent args then Some w else print_progress os (1 + i) total w)
    as [w1|]; [|done].
  case_match; [done|].
  destruct (decode_1LMG _ _ _ _ _) as [[rc|] w2]; [|done]. apply IH.
Qed.


(** X15: the decode tool does not pass its compress setting on:
    [decode_1LMG] always runs with its default, 2.  So the result is the
    same whether or not the LZ11 library was found and whatever [-c] says,
    and the line for a compressed file met with compression disabled is
    never written: every line the tool adds to stderr is one of the three
    others. *)
Theorem decode_tool_ignores_compress lib os args lz11_init inputs w :
  let r := decode_tool lib os args lz11_init inputs w in
  (∀ compress lz11_init',
     decode_tool lib os (with_compress compress args) lz11_init' inputs w = r)
  ∧ (∀ line, line ∈ stderr r.2 →
       line ∈ stderr w
       ∨ ∃ p, line = format_message p ∨ line = decompression_message p
              ∨ line = empty_message p)
  ∧ (∀ p, compressed_message p ∈ stderr r.2 → compressed_message p ∈ stderr w).
Proof.
  cbn zeta. unfold decode_tool, decode_all.
  pose proof (decode_loop_spec lib os
                (with_compress
                   (decode_compress_setting (compress_arg args) lz11_init) args)
                (Z.of_nat (length inputs) + 1) inputs 0 0 w) as (_ & _ & He).
  cbn zeta in He. split_and!.
  - intros compress lz11_init'. by rewrite !decode_loop_compress.
  - exact He.
  - intros p [Hin|(q & Hq)]%He; [done|].
    destruct Hq as [Hq|[Hq|Hq]]; cbv in Hq; discriminate Hq.
Qed.





(** ** Names of the saved files *)

Lemma str_to_from i s : str_to i s +:+ str_from i s = s.
Proof.
  unfold str_to, str_from, slice_to, slice_from.
  by rewrite <- str_app, take_drop, str_chars.
Qed.

Lemma suffix_index t x :
  x ≠ "" →
  slice_index (length (chars (t +:+ x))) (- len x) = length (chars t).
Proof.
  intros Hx. unfold slice_index, len.
  rewrite chars_app, length_app, !length_chars.
  destruct x as [|c x]; [done|]. cbn [String.length].
  destruct (Z.ltb_spec (- Z.of_nat (S (String.length x))) 0); lia.
Qed.

Lemma str_from_suffix t x : x ≠ "" → str_from (- len x) (t +:+ x) = x.
Proof.
  intros Hx. unfold str_from, slice_from. rewrite suffix_index by done.
  by rewrite chars_app, drop_app_length, str_chars.
Qed.


(** X17: the encode tool cuts one ".txt" from the end of a file name and
    nothing else: a name that ends in ".txt" loses exactly these four
    characters (once: "a.txt.txt" becomes "a.txt"), any other name, also one
    shorter than four characters, is kept as it is. *)
Theorem strip_txt_cases filename :
  (∃ t, filename = t +:+ ".txt" ∧ strip_txt filename = t)
  ∨ ((¬ ∃ t, filename = t +:+ ".txt") ∧ strip_txt filename = filename).
Proof.
  unfold strip_txt. case_decide as Hend.
  - left. exists (str_to (-4) filename). split; [|done].
    rewrite <- Hend at 1. symmetry. apply str_to_from.
  - right. split; [|done]. intros [t ->]. apply Hend.
    by apply (str_from_suffix t ".txt").
Qed.



(** ** The progress bar *)

Lemma length_str_times s n :
  String.length (str_times s n) = (Z.to_nat n * String.length s)%nat.
Proof.
  unfold str_times. induction (Z.to_nat n) as [|k IH]; [done|].
  cbn [Nat.iter nat_rect]. cbv beta. rewrite length_append. unfold Nat.iter in IH. rewrite IH. lia.
Qed.

(** X19: for [0 <= iteration <= total], [0 < total] and a block character
    of length one the bar is 100 cells long, between 0 and 100 of them
    filled, and all 100 are filled exactly when [iteration = total]. *)
Theorem progress_bar_cells os iteration total :
  String.length (full_block os) = 1%nat →
  0 < total → 0 ≤ iteration ≤ total →
  String.length (progress_bar os iteration total) = 100%nat
  ∧ 0 ≤ 100 * iteration / total ≤ 100
  ∧ (100 * iteration / total = 100 ↔ iteration = total).
Proof.
  intros Hblock Htotal Hrange.
  assert (Hlo : 0 ≤ 100 * iteration / total) by (apply Z.div_pos; lia).
  assert (Hhi : 100 * iteration / total ≤ 100).
  { apply Z.div_le_upper_bound; lia. }
  split_and!; [|lia|lia|].
  - unfold progress_bar. cbn zeta.
    rewrite length_append, !length_str_times, Hblock.
    change (String.length "-") with 1%nat. lia.
  - split.
    + intros Hfull.
      destruct (decide (iteration = total)) as [|Hne]; [done|].
      assert (100 * iteration / total < 100); [|lia].
      apply Z.div_lt_upper_bound; lia.
    + intros ->. replace (100 * total) with (100 * total + 0) by lia.
      rewrite Z.mul_comm. replace (total * 100 + 0) with (100 * total) by lia.
      by rewrite Z.div_mul by lia.
Qed.

Lemma progress_bar_cells_witness :
  String.length (progress_bar demo_os 2 4) = 100%nat
  ∧ 0 ≤ 100 * 2 / 4 ≤ 100
  ∧ (100 * 2 / 4 = 100 ↔ 2 = 4).
Proof.
  apply (progress_bar_cells demo_os 2 4); [reflexivity|lia|lia].
Defined.
